(** * Bulk image generator: credential rotation, failure classification
      and session history

    A shallow embedding of the TypeScript sources

      - [services/apiService.ts]  (error classification, gateway dispatcher,
                                   history persistence),
      - [App.tsx]                 (credential pool state, history handler),
      - [components/GeneratorPage.tsx] (the sequential generation loop),
      - [types.ts]                (the data model),

    followed by the properties of the generation loop and of the session
    recorder.

    Conventions of the embedding.

    - A JavaScript string is a [string] of bytes (its UTF-8 encoding).
      [toLowerCase] lowers the ASCII letters; the needles the source looks
      for are ASCII words on which this agrees with the Unicode mapping.
    - A value of type [any] is a [JsValue]: the JSON values a provider
      answers with, [undefined], and instances of [Error].
    - React state is an explicit record threaded through the handlers; a
      variable captured by a closure is bound once, where the closure is
      created, exactly as in the source. *)

From Stdlib Require Import List String Ascii Bool Arith ZArith Lia.
From Stdlib Require Import Numbers.DecimalString.
Import ListNotations.

Local Open Scope string_scope.
Local Open Scope nat_scope.
Local Open Scope bool_scope.

(* ================================================================== *)
(** ** JavaScript strings *)
(* ================================================================== *)

Module JsString.

(** [c.toLowerCase()] on one ASCII code unit. *)
Definition lowerAscii (c : ascii) : ascii :=
  let n := nat_of_ascii c in
  if (65 <=? n) && (n <=? 90) then ascii_of_nat (n + 32) else c.

(** [s.toLowerCase()] *)
Fixpoint toLowerCase (s : string) : string :=
  match s with
  | EmptyString => EmptyString
  | String c t => String (lowerAscii c) (toLowerCase t)
  end.

(** [hay.startsWith(needle)] *)
Fixpoint startsWith (needle hay : string) : bool :=
  match needle, hay with
  | EmptyString, _ => true
  | String _ _, EmptyString => false
  | String a n', String b h' => Ascii.eqb a b && startsWith n' h'
  end.

(** [hay.includes(needle)] *)
Fixpoint includes (needle hay : string) : bool :=
  startsWith needle hay ||
  match hay with
  | EmptyString => false
  | String _ t => includes needle t
  end.

(** The length in bytes of the white space character (in the sense of
    [String.prototype.trim]: WhiteSpace and LineTerminator) that starts
    the given byte sequence, or [0] when there is none.  The sequence is
    read from the right when [rev] is set, so that the same table serves
    [trimEnd]. *)
Definition whiteSpaceLen (rev : bool) (bs : list nat) : nat :=
  let tri (a b c : nat) :=
    (* U+1680 *)
    ((a =? 225) && (b =? 154) && (c =? 128)) ||
    (* U+2000 .. U+200A, U+2028, U+2029, U+202F *)
    ((a =? 226) && (b =? 128) &&
       (((128 <=? c) && (c <=? 138)) || (c =? 168) || (c =? 169) || (c =? 175))) ||
    (* U+205F *)
    ((a =? 226) && (b =? 129) && (c =? 159)) ||
    (* U+3000 *)
    ((a =? 227) && (b =? 128) && (c =? 128)) ||
    (* U+FEFF *)
    ((a =? 239) && (b =? 187) && (c =? 191)) in
  match bs with
  | [] => 0
  | a :: rest =>
      if ((9 <=? a) && (a <=? 13)) || (a =? 32) then 1
      else
        match rest with
        | [] => 0
        | b :: rest' =>
            (* U+00A0 *)
            if (if rev then (b =? 194) && (a =? 160) else (a =? 194) && (b =? 160))
            then 2
            else
              match rest' with
              | [] => 0
              | c :: _ => if (if rev then tri c b a else tri a b c) then 3 else 0
              end
        end
  end.

Definition bytes (s : string) : list nat := map nat_of_ascii (list_ascii_of_string s).
Definition ofBytes (bs : list nat) : string := string_of_list_ascii (map ascii_of_nat bs).

(** Strip leading white space; [fuel] bounds the number of characters
    removed and is the length of the input where it is used. *)
Fixpoint stripWs (rev : bool) (fuel : nat) (bs : list nat) : list nat :=
  match fuel with
  | 0 => bs
  | S f =>
      match whiteSpaceLen rev bs with
      | 0 => bs
      | n => stripWs rev f (skipn n bs)
      end
  end.

(** [s.trim()] *)
Definition trim (s : string) : string :=
  let front := stripWs false (String.length s) (bytes s) in
  let back := stripWs true (List.length front) (List.rev front) in
  ofBytes (List.rev back).

(** [s.split('\n')] *)
Fixpoint splitLines (s : string) : list string :=
  match s with
  | EmptyString => [EmptyString]
  | String c t =>
      if Ascii.eqb c (ascii_of_nat 10) then EmptyString :: splitLines t
      else
        match splitLines t with
        | [] => [String c EmptyString]
        | l :: ls => String c l :: ls
        end
  end.

(** [s === ''] *)
Definition isEmpty (s : string) : bool :=
  match s with EmptyString => true | _ => false end.

(** [xs.join(sep)] *)
Fixpoint join (sep : string) (xs : list string) : string :=
  match xs with
  | [] => EmptyString
  | [x] => x
  | x :: rest => x ++ sep ++ join sep rest
  end.

End JsString.

(* ================================================================== *)
(** ** JavaScript values *)
(* ================================================================== *)

Module Js.
Import JsString.

(** The values an [error: any] can hold here: what [response.json()]
    yields (and a thrown [data] therefore is), [undefined], and an
    instance of [Error] with its message.  Numbers are the integers
    (status codes); an object lists its own enumerable properties in
    the order in which they are enumerated, without duplicate keys. *)
#[warnings="-register-all"] Inductive JsValue : Type :=
| JUndefined
| JNull
| JBool (b : bool)
| JNum (n : Z)
| JStr (s : string)
| JArr (items : list JsValue)
| JObj (fields : list (string * JsValue))
| JError (message : string).

(** ToBoolean *)
Definition truthy (v : JsValue) : bool :=
  match v with
  | JUndefined | JNull => false
  | JBool b => b
  | JNum n => negb (Z.eqb n 0)
  | JStr s => negb (isEmpty s)
  | JArr _ | JObj _ | JError _ => true
  end.

Fixpoint lookup (name : string) (fields : list (string * JsValue)) : JsValue :=
  match fields with
  | [] => JUndefined
  | (k, v) :: rest => if String.eqb k name then v else lookup name rest
  end.

(** [v.name] for the property names the sources read ([error],
    [message], [status], [code]).  An [Error] carries [message] and none
    of the others; strings, numbers, booleans and arrays have none of
    them.  The sources read a property only from a truthy value. *)
Definition getProp (v : JsValue) (name : string) : JsValue :=
  match v with
  | JObj fields => lookup name fields
  | JError m => if String.eqb name "message" then JStr m else JUndefined
  | _ => JUndefined
  end.

(** [typeof v === 'object'] *)
Definition typeofObject (v : JsValue) : bool :=
  match v with
  | JNull | JArr _ | JObj _ | JError _ => true
  | _ => false
  end.

(** [Array.isArray(v)] *)
Definition isArray (v : JsValue) : bool :=
  match v with JArr _ => true | _ => false end.

(** [a || b] *)
Definition orElse (a b : JsValue) : JsValue := if truthy a then a else b.

(** [a === b] against a string or a number literal *)
Definition strictEqStr (v : JsValue) (lit : string) : bool :=
  match v with JStr s => String.eqb s lit | _ => false end.
Definition strictEqNum (v : JsValue) (lit : Z) : bool :=
  match v with JNum n => Z.eqb n lit | _ => false end.

Definition dquote : string := String (ascii_of_nat 34) EmptyString.

Definition hexDigit (n : nat) : ascii :=
  if n <? 10 then ascii_of_nat (48 + n) else ascii_of_nat (87 + n).

(** The JSON escape of one byte of a string. *)
Definition escapeChar (c : ascii) : string :=
  let n := nat_of_ascii c in
  if n =? 34 then String (ascii_of_nat 92) dquote
  else if n =? 92 then String c (String c EmptyString)
  else if n =? 8 then String (ascii_of_nat 92) "b"
  else if n =? 9 then String (ascii_of_nat 92) "t"
  else if n =? 10 then String (ascii_of_nat 92) "n"
  else if n =? 12 then String (ascii_of_nat 92) "f"
  else if n =? 13 then String (ascii_of_nat 92) "r"
  else if n <? 32 then
    String (ascii_of_nat 92)
      ("u00" ++ String (hexDigit (n / 16)) (String (hexDigit (n mod 16)) EmptyString))
  else String c EmptyString.

Fixpoint escape (s : string) : string :=
  match s with
  | EmptyString => EmptyString
  | String c t => escapeChar c ++ escape t
  end.

(** [JSON.stringify] of a string *)
Definition quote (s : string) : string := dquote ++ escape s ++ dquote.

Definition numberToString (n : Z) : string := NilZero.string_of_int (Z.to_int n).

(** [JSON.stringify(v)]: [None] stands for the result [undefined].  In
    an array [undefined] is written [null]; in an object a property
    holding [undefined] is left out; an [Error] has no enumerable
    property of its own. *)
Fixpoint stringify (v : JsValue) : option string :=
  match v with
  | JUndefined => None
  | JNull => Some "null"
  | JBool true => Some "true"
  | JBool false => Some "false"
  | JNum n => Some (numberToString n)
  | JStr s => Some (quote s)
  | JArr items =>
      let item (x : JsValue) :=
        match stringify x with Some s => s | None => "null" end in
      Some ("[" ++ join "," (map item items) ++ "]")
  | JObj fields =>
      let fix members (fs : list (string * JsValue)) : list string :=
        match fs with
        | [] => []
        | (k, x) :: rest =>
            match stringify x with
            | Some s => (quote k ++ ":" ++ s) :: members rest
            | None => members rest
            end
        end in
      Some ("{" ++ join "," (members fields) ++ "}")
  | JError _ => Some "{}"
  end.

(** A method call [v.toLowerCase()]: only a string has the method, the
    call on anything else raises a [TypeError] ([None]). *)
Definition callToLowerCase (v : JsValue) : option string :=
  match v with JStr s => Some (toLowerCase s) | _ => None end.

End Js.

(* ================================================================== *)
(** ** types.ts *)
(* ================================================================== *)

Module Types.
Import Js.

Inductive ApiKeyStatus : Type :=
| Active
| RateLimited.

(** The enum [AIService]; [OtherService] is a value outside the enum (as
    [undefined], when a caller leaves the argument out), with the text a
    template literal renders it to. *)
Inductive AIService : Type :=
| Gemini
| OpenAI
| OtherService (shown : string).

Record ApiKey : Type := mkApiKey {
  key : string;
  status : ApiKeyStatus;
  service : AIService
}.

(** [error?: string]: the field holds [JUndefined] when it is absent, and
    otherwise the value the source stores there. *)
Record GenerationResult : Type := mkResult {
  prompt : string;
  images : list string;
  error : JsValue
}.

Record HistoryItem : Type := mkHistoryItem {
  id : string;
  date : string;
  results : list GenerationResult
}.

Definition isActive (k : ApiKey) : bool :=
  match status k with Active => true | RateLimited => false end.

Definition showService (s : AIService) : string :=
  match s with
  | Gemini => "Gemini"
  | OpenAI => "OpenAI"
  | OtherService shown => shown
  end.

End Types.

(* ================================================================== *)
(** ** services/apiService.ts *)
(* ================================================================== *)

Module ApiService.
Import JsString Js Types.

(** [getErrorMessage(error)].  The declared result type is [string]; the
    value returned from the second branch is whatever the payload holds
    under [message]. *)
Definition getErrorMessage (error : JsValue) : JsValue :=
  if negb (truthy error) then JStr "An unknown error occurred."
  else
    let errorDetails := orElse (getProp error "error") error in
    if typeofObject errorDetails && negb (isArray errorDetails)
       && truthy (getProp errorDetails "message")
    then getProp errorDetails "message"
    else
      match error with
      | JStr s => JStr s
      | _ =>
          match stringify error with
          | None => JUndefined
          | Some stringifiedError =>
              if negb (String.eqb stringifiedError "{}") then JStr stringifiedError
              else JStr "An unknown error occurred. Check the console for details."
          end
      end.

(** [isRateLimitError(error)]; [None] when [toLowerCase] is called on a
    message that is not a string. *)
Definition isRateLimitError (error : JsValue) : option bool :=
  if negb (truthy error) then Some false
  else
    let details := orElse (getProp error "error") error in
    if strictEqStr (getProp details "status") "RESOURCE_EXHAUSTED"
       || strictEqNum (getProp details "code") 429
    then Some true
    else if strictEqStr (getProp details "code") "rate_limit_exceeded"
    then Some true
    else
      match callToLowerCase (getErrorMessage error) with
      | None => None
      | Some message =>
          Some (includes "quota" message || includes "rate limit" message
                || includes "resource exhausted" message)
      end.

(** [isPromptError(error)] *)
Definition isPromptError (error : JsValue) : option bool :=
  match callToLowerCase (getErrorMessage error) with
  | None => None
  | Some message => Some (includes "prompt" message || includes "safety" message)
  end.

(** *** The dispatcher *)

(** A request that reached a provider. *)
Inductive ProviderCall : Type :=
| CallGemini (prompt apiKey : string) (numImages : nat)
| CallOpenAI (prompt apiKey : string).

(** What a promise settles to: the value, or what was thrown. *)
Definition Settled : Type := (list string + JsValue)%type.

(** The far side of [fetch], with the requests sent so far (newest
    first). *)
Record Gateway (Net : Type) : Type := mkGateway {
  net : Net;
  calls : list ProviderCall
}.
Arguments mkGateway {Net}.
Arguments net {Net}.
Arguments calls {Net}.

Section Dispatcher.
Variable Net : Type.
(** [generateImagesGemini] and [generateImagesOpenAI] talk to the
    providers; what they settle to is the providers' business. *)
Variable generateImagesGemini : string -> string -> nat -> Net -> Settled * Net.
Variable generateImagesOpenAI : string -> string -> Net -> Settled * Net.

(** [error instanceof Error] *)
Definition instanceofError (v : JsValue) : bool :=
  match v with JError _ => true | _ => false end.

(** ['error' in error] *)
Definition hasErrorProp (v : JsValue) : bool :=
  match v with
  | JObj fields => existsb (fun kv => String.eqb (fst kv) "error") fields
  | _ => false
  end.

Definition generateImages (prompt apiKey : string) (numImages : nat)
    (service : AIService) (g : Gateway Net) : Settled * Gateway Net :=
  if isEmpty apiKey || isEmpty (trim apiKey)
  then (inr (JError "A valid API key must be provided."), g)
  else
    let '(settled, g') :=
      match service with
      | Gemini =>
          let '(r, n) := generateImagesGemini prompt apiKey numImages (net g) in
          (r, mkGateway n (CallGemini prompt apiKey numImages :: calls g))
      | OpenAI =>
          let '(r, n) := generateImagesOpenAI prompt apiKey (net g) in
          (r, mkGateway n (CallOpenAI prompt apiKey :: calls g))
      | OtherService shown =>
          (inr (JError ("Unsupported AI service: " ++ shown)), g)
      end in
    match settled with
    | inl generated => (inl generated, g')
    | inr error =>
        if instanceofError error && negb (hasErrorProp error)
        then (inr (JError ("Failed to call the " ++ showService service
                           ++ " API. Please check your network connection or console for details.")),
              g')
        else (inr error, g')
    end.
End Dispatcher.

(** *** Local storage service *)

(** The two entries of [localStorage] the application uses, each holding
    the list its JSON text denotes; [None] is an absent entry.  [setItem]
    stores what it is given. *)
Record Storage : Type := mkStorage {
  storedHistory : option (list HistoryItem);
  storedKeys : option (list ApiKey)
}.

Definition loadHistory (ls : Storage) : list HistoryItem :=
  match storedHistory ls with
  | Some h => h
  | None => []
  end.

Definition saveHistory (history : list HistoryItem) (ls : Storage) : Storage :=
  mkStorage (Some history) (storedKeys ls).

(** [xs.findIndex(p)]; [None] is [-1]. *)
Fixpoint findIndex {A : Type} (p : A -> bool) (xs : list A) : option nat :=
  match xs with
  | [] => None
  | x :: rest => if p x then Some 0 else option_map S (findIndex p rest)
  end.

(** [h[itemIndex].results = newResults] *)
Fixpoint setResultsAt (itemIndex : nat) (newResults : list GenerationResult)
    (h : list HistoryItem) : list HistoryItem :=
  match h, itemIndex with
  | [], _ => []
  | item :: rest, 0 => mkHistoryItem (id item) (date item) newResults :: rest
  | item :: rest, S i => item :: setResultsAt i newResults rest
  end.

(** [updateHistory(sessionId, newResults)]; [now] is what
    [new Date().toLocaleString()] gives when it is evaluated. *)
Definition updateHistory (now : string) (sessionId : string)
    (newResults : list GenerationResult) (ls : Storage)
    : list HistoryItem * Storage :=
  let currentHistory := loadHistory ls in
  let updatedHistory :=
    match findIndex (fun item => String.eqb (id item) sessionId) currentHistory with
    | Some itemIndex => setResultsAt itemIndex newResults currentHistory
    | None => mkHistoryItem sessionId now newResults :: currentHistory
    end in
  (updatedHistory, saveHistory updatedHistory ls).

Definition deleteHistoryItem (id0 : string) (ls : Storage)
    : list HistoryItem * Storage :=
  let currentHistory := loadHistory ls in
  let updatedHistory :=
    filter (fun item => negb (String.eqb (id item) id0)) currentHistory in
  (updatedHistory, saveHistory updatedHistory ls).

Definition clearHistory (ls : Storage) : Storage :=
  mkStorage None (storedKeys ls).

End ApiService.

(* ================================================================== *)
(** ** services/apiService.ts: the providers' answers *)
(* ================================================================== *)

(** What [generateImagesGemini] and [generateImagesOpenAI] do with the
    answer once [fetch] and [response.json()] have settled. *)
Module Providers.
Import JsString Js Types ApiService.

(** [await fetch(...)] followed by [await response.json()]. *)
Inductive Fetched : Type :=
| FetchFailed (message : string)
    (** [fetch] rejects with an [Error] *)
| NotJson (ok : bool) (message : string)
    (** [response.json()] rejects with an [Error] *)
| Body (ok : bool) (data : JsValue)
    (** [response.ok] and the parsed body *).

(** A value, or what was thrown instead. *)
Definition Outcome (A : Type) : Type := (A + JsValue)%type.

Section Engine.
(** The message of the [TypeError] that reading the property [name] of
    [null] or [undefined] raises. *)
Variable typeErrorText : string -> string.

(** [v.name] *)
Definition member (v : JsValue) (name : string) : Outcome JsValue :=
  match v with
  | JUndefined | JNull => inr (JError (typeErrorText name))
  | _ => inl (getProp v name)
  end.

(** [v?.name] *)
Definition optMember (v : JsValue) (name : string) : JsValue :=
  match v with
  | JUndefined | JNull => JUndefined
  | _ => getProp v name
  end.

(** [v[0]], read from an array *)
Definition first (v : JsValue) : JsValue :=
  match v with
  | JArr (x :: _) => x
  | _ => JUndefined
  end.

(** [img.image.imageBytes] *)
Definition imageBytesOf (img : JsValue) : Outcome JsValue :=
  match member img "image" with
  | inr thrown => inr thrown
  | inl image => member image "imageBytes"
  end.

(** [items.map((img) => img.image.imageBytes)] *)
Fixpoint mapImageBytes (items : list JsValue) : Outcome (list JsValue) :=
  match items with
  | [] => inl []
  | img :: rest =>
      match imageBytesOf img with
      | inr thrown => inr thrown
      | inl bytes0 =>
          match mapImageBytes rest with
          | inr thrown => inr thrown
          | inl more => inl (bytes0 :: more)
          end
      end
  end.

(** [generateImagesGemini], from the answer on. *)
Definition generateImagesGemini (f : Fetched) : Outcome (list JsValue) :=
  match f with
  | FetchFailed m => inr (JError m)
  | NotJson _ m => inr (JError m)
  | Body ok data =>
      if negb ok then inr data
      else
        match member data "generatedImages" with
        | inr thrown => inr thrown
        | inl generatedImages =>
            (* [!x || !Array.isArray(x)] holds exactly when [x] is not an
               array: an array is truthy *)
            match generatedImages with
            | JArr items => mapImageBytes items
            | _ => inr (JError "Invalid response format from Gemini. Expected 'generatedImages' array.")
            end
        end
  end.

(** [generateImagesOpenAI], from the answer on. *)
Definition generateImagesOpenAI (f : Fetched) : Outcome (list JsValue) :=
  match f with
  | FetchFailed m => inr (JError m)
  | NotJson _ m => inr (JError m)
  | Body ok data =>
      if negb ok then inr data
      else
        match member data "data" with
        | inr thrown => inr thrown
        | inl data1 =>
            if negb (truthy data1) || negb (isArray data1)
               || negb (truthy (optMember (first data1) "b64_json"))
            then inr (JError "Invalid response format from OpenAI. Expected 'data' array with 'b64_json'.")
            else
              match member (first data1) "b64_json" with
              | inr thrown => inr thrown
              | inl b64 => inl [b64]
              end
        end
  end.
End Engine.

End Providers.

(* ================================================================== *)
(** ** App.tsx *)
(* ================================================================== *)

Module App.
Import JsString Js Types ApiService.

(** The state of the [App] component and the storage behind it. *)
Record AppState : Type := mkApp {
  apiKeys : list ApiKey;
  history : list HistoryItem;
  localStorage : Storage
}.

Definition updateApiKeys (newKeys : list ApiKey) (a : AppState) : AppState :=
  mkApp newKeys (history a)
        (mkStorage (storedHistory (localStorage a)) (Some newKeys)).

(** [{ ...k, status }] *)
Definition withStatus (k : ApiKey) (status0 : ApiKeyStatus) : ApiKey :=
  mkApiKey (key k) status0 (service k).

(** [updateApiKeyStatus(key, status)].  The function is a closure of one
    render of [App]: [apiKeys0] is the [apiKeys] of that render, and the
    new list is computed from it. *)
Definition updateApiKeyStatus (apiKeys0 : list ApiKey) (key0 : string)
    (status0 : ApiKeyStatus) (a : AppState) : AppState :=
  updateApiKeys
    (map (fun k => if String.eqb (key k) key0 then withStatus k status0 else k) apiKeys0)
    a.

(** [handleGenerationUpdate(sessionId, results)]; [now] is the reading
    of the clock handed on to [updateHistory]. *)
Definition handleGenerationUpdate (now : string) (sessionId : string)
    (results0 : list GenerationResult) (a : AppState) : AppState :=
  if existsb (fun r => 0 <? List.length (images r)) results0
  then
    let '(updatedHistory, ls) := updateHistory now sessionId results0 (localStorage a) in
    mkApp (apiKeys a) updatedHistory ls
  else a.

(** [addApiKey(key, service)], a closure of the render whose [apiKeys]
    is [apiKeys0]. *)
Definition addApiKey (apiKeys0 : list ApiKey) (key0 : string) (service0 : AIService)
    (a : AppState) : AppState :=
  if negb (existsb (fun k => String.eqb (key k) key0) apiKeys0)
  then updateApiKeys (apiKeys0 ++ [mkApiKey key0 Active service0]) a
  else a.

(** [removeApiKey(key)] *)
Definition removeApiKey (apiKeys0 : list ApiKey) (key0 : string) (a : AppState)
    : AppState :=
  updateApiKeys (filter (fun k => negb (String.eqb (key k) key0)) apiKeys0) a.



End App.

(* ================================================================== *)
(** ** components/GeneratorPage.tsx *)
(* ================================================================== *)

Module GeneratorPage.
Import JsString Js Types ApiService.

(** What the loop does to the outside, newest first. *)
Inductive Event : Type :=
| EvCall (prompt apiKey : string) (numImages : nat)
    (** [generateImages(prompt, apiKey.key, numImages)] *)
| EvWait (ms : nat)
    (** a timer of [ms] milliseconds was awaited to its end *)
| EvUpdate (sessionId : string) (results : list GenerationResult)
    (** [onGenerationUpdate(sessionId, results)] *)
| EvAlert (text : string).

(** What awaiting the gateway gives: how the promise settled, and whether
    the user pressed Stop ([handleStop]) while it was pending. *)
Record Reply : Type := mkReply {
  settled : Settled;
  stopClicked : bool
}.

(** The environment of a run: the gateway, the timer and the clock, over
    a state [W] of its own.  [sleep] is [setTimeout] awaited; it tells
    whether Stop was pressed during the wait. *)
Record Env (W : Type) : Type := mkEnv {
  callGateway : string -> string -> nat -> W -> Reply * W;
  sleep : nat -> W -> bool * W;
  isoNow : W -> string;
  localeNow : W -> string
}.
Arguments callGateway {W}.
Arguments sleep {W}.
Arguments isoNow {W}.
Arguments localeNow {W}.

(** The state of the [GeneratorPage] component, the [App] it reports to,
    the [stopRequest] ref, and the environment. *)
Record PageState (W : Type) : Type := mkPage {
  app : App.AppState;
  prompts : string;
  numImages : nat;
  isLoading : bool;
  statusMessage : string;
  results : list GenerationResult;
  currentKeyIndex : nat;
  stopRequest : bool;
  world : W;
  trace : list Event
}.
Arguments mkPage {W}.
Arguments app {W}.
Arguments prompts {W}.
Arguments numImages {W}.
Arguments isLoading {W}.
Arguments statusMessage {W}.
Arguments results {W}.
Arguments currentKeyIndex {W}.
Arguments stopRequest {W}.
Arguments world {W}.
Arguments trace {W}.

(** How an invocation ends: it returns, or an exception leaves it. *)
Inductive Completion : Type :=
| Returned
| Uncaught.

(** The variables of one pass of the [for] loop. *)
Record Attempt : Type := mkAttempt {
  promptResult : option GenerationResult;
  success : bool;
  attempts : nat;
  keyIdx : nat
}.

Definition showNat (n : nat) : string := NilZero.string_of_uint (Nat.to_uint n).

(** [s.slice(-6)] *)
Definition sliceLast6 (s : string) : string :=
  substring (String.length s - 6) 6 s.

(** The status lines that depend on the prompt or on the key. *)
Definition statusProcessing (i total : nat) (prompt0 : string) : string :=
  "Processing prompt " ++ showNat (i + 1) ++ " of " ++ showNat total
  ++ ": " ++ dquote ++ prompt0 ++ dquote.

Definition statusTrying (i total : nat) (apiKey : ApiKey) : string :=
  "[Prompt " ++ showNat (i + 1) ++ "/" ++ showNat total
  ++ "] Trying key ..." ++ sliceLast6 (key apiKey).

Definition statusCoolingDown (apiKey : ApiKey) : string :=
  "Key ..." ++ sliceLast6 (key apiKey) ++ " rate limited. Cooling down for 2s...".

Definition statusFailed (apiKey : ApiKey) : string :=
  "Key ..." ++ sliceLast6 (key apiKey) ++ " failed. Trying next key.".

Section Run.
Variable W : Type.
Variable env : Env W.

Local Abbreviation St := (PageState W).

Definition setApp (a : App.AppState) (st : St) : St :=
  mkPage a (prompts st) (numImages st) (isLoading st) (statusMessage st)
         (results st) (currentKeyIndex st) (stopRequest st) (world st) (trace st).
Definition setIsLoading (b : bool) (st : St) : St :=
  mkPage (app st) (prompts st) (numImages st) b (statusMessage st)
         (results st) (currentKeyIndex st) (stopRequest st) (world st) (trace st).
Definition setStatusMessage (m : string) (st : St) : St :=
  mkPage (app st) (prompts st) (numImages st) (isLoading st) m
         (results st) (currentKeyIndex st) (stopRequest st) (world st) (trace st).
Definition setResults (rs : list GenerationResult) (st : St) : St :=
  mkPage (app st) (prompts st) (numImages st) (isLoading st) (statusMessage st)
         rs (currentKeyIndex st) (stopRequest st) (world st) (trace st).
Definition setCurrentKeyIndex (i : nat) (st : St) : St :=
  mkPage (app st) (prompts st) (numImages st) (isLoading st) (statusMessage st)
         (results st) i (stopRequest st) (world st) (trace st).
Definition setStopRequest (b : bool) (st : St) : St :=
  mkPage (app st) (prompts st) (numImages st) (isLoading st) (statusMessage st)
         (results st) (currentKeyIndex st) b (world st) (trace st).
Definition setWorld (w : W) (st : St) : St :=
  mkPage (app st) (prompts st) (numImages st) (isLoading st) (statusMessage st)
         (results st) (currentKeyIndex st) (stopRequest st) w (trace st).
Definition emit (e : Event) (st : St) : St :=
  mkPage (app st) (prompts st) (numImages st) (isLoading st) (statusMessage st)
         (results st) (currentKeyIndex st) (stopRequest st) (world st) (e :: trace st).

Definition handleStop (st : St) : St :=
  setStatusMessage "Stopping generation..." (setStopRequest true st).

(** While the task is suspended the user may press Stop. *)
Definition suspended (clicked : bool) (st : St) : St :=
  if clicked then handleStop st else st.

(** [await generateImages(prompt, apiKey.key, numImages)] *)
Definition awaitGenerateImages (prompt0 key0 : string) (n : nat) (st : St)
    : Settled * St :=
  let '(reply, w) := callGateway env prompt0 key0 n (world st) in
  (settled reply,
   suspended (stopClicked reply) (setWorld w (emit (EvCall prompt0 key0 n) st))).

(** [await new Promise(resolve => setTimeout(resolve, ms))] *)
Definition awaitTimeout (ms : nat) (st : St) : St :=
  let '(clicked, w) := sleep env ms (world st) in
  suspended clicked (setWorld w (emit (EvWait ms) st)).

(** The props [updateApiKeyStatus] and [onGenerationUpdate], closures
    of the render of [App] that passed [apiKeys0] down. *)
Definition updateApiKeyStatus (apiKeys0 : list ApiKey) (key0 : string)
    (status0 : ApiKeyStatus) (st : St) : St :=
  setApp (App.updateApiKeyStatus apiKeys0 key0 status0 (app st)) st.

Definition onGenerationUpdate (sessionId : string)
    (results0 : list GenerationResult) (st : St) : St :=
  let st1 := emit (EvUpdate sessionId results0) st in
  setApp (App.handleGenerationUpdate (localeNow env (world st1)) sessionId results0
            (app st1)) st1.

Definition allKeysRateLimited (prompt0 : string) : GenerationResult :=
  mkResult prompt0 [] (JStr "All available keys are rate-limited.").

Definition allKeysFailed (prompt0 : string) : GenerationResult :=
  mkResult prompt0 [] (JStr "All active API keys failed or are rate limited.").

(** The [while] loop of one prompt.  [apiKeys0] is the [apiKeys] prop of
    the render whose [handleGenerate] is running; [i] and [total] only
    feed the status line.  [budget] is
    [activeKeysForPrompt.length - attempts]: the condition
    [attempts < activeKeysForPrompt.length] holds exactly while it is
    positive, and [success] ends the loop where it is set. *)
Fixpoint whileLoop (apiKeys0 : list ApiKey) (i total : nat) (prompt0 : string)
    (budget : nat) (v : Attempt) (st : St) : Completion * Attempt * St :=
  match budget with
  | 0 => (Returned, v, st)
  | S budget' =>
      if stopRequest st then (Returned, v, st)
      else
        let currentActiveKeys := filter isActive apiKeys0 in
        if List.length currentActiveKeys =? 0
        then (Returned,
              mkAttempt (Some (allKeysRateLimited prompt0)) (success v) (attempts v) (keyIdx v),
              st)
        else
          let keyIdx1 := keyIdx v mod List.length currentActiveKeys in
          match nth_error currentActiveKeys keyIdx1 with
          | None => (Uncaught, v, st)
          | Some apiKey =>
              let st1 :=
                setStatusMessage (statusTrying i total apiKey) st in
              let '(r, st2) := awaitGenerateImages prompt0 (key apiKey) (numImages st) st1 in
              match r with
              | inl generatedImages =>
                  (Returned,
                   mkAttempt (Some (mkResult prompt0 generatedImages JUndefined))
                             true (attempts v) keyIdx1,
                   setCurrentKeyIndex keyIdx1 st2)
              | inr error0 =>
                  match isPromptError error0 with
                  | None => (Uncaught, v, st2)
                  | Some true =>
                      (Returned,
                       mkAttempt (Some (mkResult prompt0 [] (getErrorMessage error0)))
                                 (success v) (attempts v) keyIdx1,
                       st2)
                  | Some false =>
                      match isRateLimitError error0 with
                      | None => (Uncaught, v, st2)
                      | Some true =>
                          let st3 := updateApiKeyStatus apiKeys0 (key apiKey) RateLimited st2 in
                          let st4 :=
                            setStatusMessage (statusCoolingDown apiKey) st3 in
                          let st5 :=
                            if negb (stopRequest st4) then awaitTimeout 2000 st4 else st4 in
                          whileLoop apiKeys0 i total prompt0 budget'
                            (mkAttempt (promptResult v) (success v)
                                       (attempts v + 1) (keyIdx1 + 1)) st5
                      | Some false =>
                          let st3 := updateApiKeyStatus apiKeys0 (key apiKey) RateLimited st2 in
                          let st4 :=
                            setStatusMessage (statusFailed apiKey) st3 in
                          whileLoop apiKeys0 i total prompt0 budget'
                            (mkAttempt (promptResult v) (success v)
                                       (attempts v + 1) (keyIdx1 + 1)) st4
                      end
                  end
              end
          end
  end.

(** Lines 284 to 290: the resolved prompt is recorded. *)
Definition record (sessionId : string) (r : GenerationResult)
    (finalResults : list GenerationResult) (st : St)
    : list GenerationResult * St :=
  let finalResults1 := (finalResults ++ [r])%list in
  let st1 := setResults (results st ++ [r])%list st in
  if (0 <? List.length (images r)) || truthy (error r)
  then (finalResults1, onGenerationUpdate sessionId finalResults1 st1)
  else (finalResults1, st1).

(** The [for] loop over [promptsToProcess], from index [i] on: [todo]
    holds the prompts from [i] to the end, [total] is
    [promptsToProcess.length].  It gives back [finalResults] and
    [keyIdx] with the state. *)
Fixpoint forLoop (apiKeys0 : list ApiKey) (sessionId : string) (total i : nat)
    (todo : list string) (finalResults : list GenerationResult) (keyIdx0 : nat)
    (st : St) : Completion * list GenerationResult * nat * St :=
  match todo with
  | [] => (Returned, finalResults, keyIdx0, st)
  | prompt0 :: rest =>
      if stopRequest st
      then (Returned, finalResults, keyIdx0,
            setStatusMessage "Generation stopped by user." st)
      else
        let st1 :=
          setStatusMessage (statusProcessing i total prompt0) st in
        let activeKeysForPrompt := filter isActive apiKeys0 in
        let '(c, v, st2) :=
          whileLoop apiKeys0 i total prompt0 (List.length activeKeysForPrompt)
            (mkAttempt None false 0 keyIdx0) st1 in
        match c with
        | Uncaught => (Uncaught, finalResults, keyIdx v, st2)
        | Returned =>
            if stopRequest st2 then (Returned, finalResults, keyIdx v, st2)
            else
              let promptResult1 :=
                match success v, promptResult v with
                | false, None => Some (allKeysFailed prompt0)
                | _, pr => pr
                end in
              match promptResult1 with
              | Some r =>
                  let '(finalResults1, st3) := record sessionId r finalResults st2 in
                  forLoop apiKeys0 sessionId total (i + 1) rest finalResults1 (keyIdx v) st3
              | None =>
                  forLoop apiKeys0 sessionId total (i + 1) rest finalResults (keyIdx v) st2
              end
        end
  end.

(** [promptsToProcess] *)
Definition promptsToProcess (text : string) : list string :=
  filter (fun p => negb (isEmpty (trim p))) (splitLines (trim text)).

(** [handleGenerate()], invoked in state [st]: the values its closure
    captured ([prompts], [apiKeys], [numImages], [currentKeyIndex]) are
    those of the render that [st] describes, and they are what the
    invocation reads until it ends.  [updateApiKeyStatus] sets the state
    of [App] to a new array, which later renders receive; the array
    bound to [apiKeys] here is not changed by it. *)
Definition handleGenerate (st : St) : Completion * St :=
  let apiKeys0 := App.apiKeys (app st) in
  if isEmpty (trim (prompts st))
  then (Returned, emit (EvAlert "Please enter at least one prompt.") st)
  else
    let initialActiveKeys := filter isActive apiKeys0 in
    if List.length initialActiveKeys =? 0
    then (Returned, emit (EvAlert "Please add at least one active API key.") st)
    else
      let st1 :=
        setStatusMessage "Starting generation..."
          (setResults [] (setStopRequest false (setIsLoading true st))) in
      let todo := promptsToProcess (prompts st) in
      let sessionId := isoNow env (world st1) in
      let '(c, _, _, st2) :=
        forLoop apiKeys0 sessionId (List.length todo) 0 todo [] (currentKeyIndex st) st1 in
      match c with
      | Uncaught => (Uncaught, st2)
      | Returned =>
          let st3 :=
            if negb (stopRequest st2)
            then setStatusMessage "All prompts processed." st2
            else st2 in
          (Returned, setIsLoading false st3)
      end.
End Run.

Arguments setApp {W}.
Arguments setIsLoading {W}.
Arguments setStatusMessage {W}.
Arguments setResults {W}.
Arguments setCurrentKeyIndex {W}.
Arguments setStopRequest {W}.
Arguments setWorld {W}.
Arguments emit {W}.
Arguments handleStop {W}.
Arguments suspended {W}.
Arguments awaitGenerateImages {W}.
Arguments awaitTimeout {W}.
Arguments updateApiKeyStatus {W}.
Arguments onGenerationUpdate {W}.
Arguments whileLoop {W}.
Arguments record {W}.
Arguments forLoop {W}.
Arguments handleGenerate {W}.

(** [ApiKeyManager]'s [handleResetStatus()]: [apiKeys.forEach] over the
    [apiKeys] prop, calling the [updateApiKeyStatus] prop, which is the
    closure of the same render of [App]. *)
Definition handleResetStatus (apiKeys0 : list ApiKey) (a : App.AppState)
    : App.AppState :=
  fold_left
    (fun acc k =>
       match status k with
       | RateLimited => App.updateApiKeyStatus apiKeys0 (key k) Active acc
       | Active => acc
       end)
    apiKeys0 a.

End GeneratorPage.

(* ================================================================== *)
(** ** Scripted environments *)
(* ================================================================== *)

(** A concrete environment for running the loop: the gateway answers from
    a list of replies, the timer from a list of flags (whether Stop is
    pressed during that wait), and the clock stands still. *)
Module Scripted.
Import Js Types ApiService GeneratorPage.

Record Script : Type := mkScript {
  replies : list Reply;
  clicks : list bool
}.

Definition networkDown : Reply :=
  mkReply (inr (JError "Failed to call the Gemini API. Please check your network connection or console for details.")) false.

Definition env : Env Script :=
  mkEnv Script
    (fun _ _ _ w =>
       match replies w with
       | r :: rest => (r, mkScript rest (clicks w))
       | [] => (networkDown, w)
       end)
    (fun _ w =>
       match clicks w with
       | c :: rest => (c, mkScript (replies w) rest)
       | [] => (false, w)
       end)
    (fun _ => "2025-01-01T00:00:00.000Z")
    (fun _ => "1/1/2025, 12:00:00 AM").

Definition emptyStorage : Storage := mkStorage None None.

(** The page as it is when the user presses Generate: [keys] in the pool
    (and stored), no history, [text] in the prompt box. *)
Definition ready {W : Type} (keys : list ApiKey) (text : string) (n : nat) (w : W)
    : PageState W :=
  mkPage (App.mkApp keys [] (mkStorage None (Some keys)))
         text n false EmptyString [] 0 false w [].

Definition gemini (k : string) : ApiKey := mkApiKey k Active Gemini.

Definition keyA : ApiKey := gemini "AAAAAAAAAA1".
Definition keyB : ApiKey := gemini "BBBBBBBBBB2".

(** The variables of a pass of the [for] loop as it begins. *)
Definition fresh : Attempt := mkAttempt None false 0 0.

(** Payloads in the shape the providers answer with. *)
Definition rateLimited : JsValue :=
  JObj [("error",
         JObj [("code", JNum 429);
               ("message", JStr "Quota exceeded for this key.");
               ("status", JStr "RESOURCE_EXHAUSTED")])].

Definition blocked : JsValue :=
  JObj [("error",
         JObj [("code", JNum 400);
               ("message", JStr "The prompt was blocked.");
               ("status", JStr "INVALID_ARGUMENT")])].

Definition invalidKey : JsValue :=
  JObj [("error",
         JObj [("code", JNum 400);
               ("message", JStr "API key not valid.");
               ("status", JStr "INVALID_ARGUMENT")])].

(** A safety refusal that also carries the rate-limit markers. *)
Definition blockedAndLimited : JsValue :=
  JObj [("error",
         JObj [("code", JNum 429);
               ("message", JStr "Rejected by our safety system.");
               ("status", JStr "RESOURCE_EXHAUSTED")])].

Definition ok (imgs : list string) : Reply := mkReply (inl imgs) false.
Definition failed (e : JsValue) : Reply := mkReply (inr e) false.

(** The text of the prompt box with one prompt per line. *)
Definition lines (ps : list string) : string :=
  JsString.join (String (ascii_of_nat 10) EmptyString) ps.



(** Two keys, one prompt; the first call is rate limited, the second is
    refused for its key. *)
Definition bothFail : PageState Script :=
  ready [keyA; keyB] "A" 1 (mkScript [failed rateLimited; failed invalidKey] []).

(** Two keys, two prompts; every call succeeds. *)
Definition allGood : PageState Script :=
  ready [keyA; keyB] (lines ["A"; "B"]) 1 (mkScript [ok ["i1"]; ok ["i2"]] []).

End Scripted.

(* ================================================================== *)
(** ** Notions used in the statements *)
(* ================================================================== *)

Module Notions.
Import JsString Js Types ApiService.

Definition hasId (sessionId : string) (item : HistoryItem) : bool :=
  String.eqb (id item) sessionId.

(** The outcome sequence stored for a session. *)
Definition sessionResults (sessionId : string) (h : list HistoryItem)
    : option (list GenerationResult) :=
  option_map results (find (hasId sessionId) h).

(** The byte sequence is the encoding of one white space character. *)
Definition isWhiteSpaceChar (c : list nat) : bool :=
  (0 <? List.length c) && (whiteSpaceLen false c =? List.length c).

(** A string made of white space characters only (the empty string
    among them). *)
Inductive WhiteSpaceOnly : list nat -> Prop :=
| ws_nil : WhiteSpaceOnly []
| ws_cons (c rest : list nat) :
    isWhiteSpaceChar c = true -> WhiteSpaceOnly rest -> WhiteSpaceOnly (c ++ rest).

(** The credential an attempt uses when the loop variable [keyIdx] holds
    [keyIdx0]: [currentActiveKeys[keyIdx0 % currentActiveKeys.length]]. *)
Definition selectedKey (apiKeys0 : list ApiKey) (keyIdx0 : nat) : option ApiKey :=
  nth_error (filter isActive apiKeys0)
            (keyIdx0 mod List.length (filter isActive apiKeys0)).

(** Between two states of a run nothing was recorded: the result
    sequence, the history and its stored copy are the same and no update
    was sent to [App]. *)
Definition quiet {W : Type} (st st' : GeneratorPage.PageState W) : Prop :=
  GeneratorPage.results st' = GeneratorPage.results st
  /\ App.history (GeneratorPage.app st') = App.history (GeneratorPage.app st)
  /\ storedHistory (App.localStorage (GeneratorPage.app st'))
     = storedHistory (App.localStorage (GeneratorPage.app st))
  /\ (forall sid rs,
        In (GeneratorPage.EvUpdate sid rs) (GeneratorPage.trace st') ->
        In (GeneratorPage.EvUpdate sid rs) (GeneratorPage.trace st)).

(** Between two states of a run, every update sent to [App] carried a
    prefix of [final] under the session [sid], and what is stored for the
    session is either untouched or such a prefix. *)
Definition journalled {W : Type} (sid : string) (final : list GenerationResult)
    (st st' : GeneratorPage.PageState W) : Prop :=
  (forall sid' rs,
     In (GeneratorPage.EvUpdate sid' rs) (GeneratorPage.trace st') ->
     In (GeneratorPage.EvUpdate sid' rs) (GeneratorPage.trace st)
     \/ (sid' = sid /\ exists j, rs = firstn j final))
  /\ (storedHistory (App.localStorage (GeneratorPage.app st'))
      = storedHistory (App.localStorage (GeneratorPage.app st))
      \/ exists j,
           sessionResults sid (loadHistory (App.localStorage (GeneratorPage.app st')))
           = Some (firstn j final)).



(** The result has an image. *)
Definition hasImage (r : GenerationResult) : bool := 0 <? List.length (images r).


(** The pool [l] with the status [s] given to the entries whose key is
    [k]. *)
Definition withKeyStatus (k : string) (s : ApiKeyStatus) (l : list ApiKey)
    : list ApiKey :=
  map (fun x => if String.eqb (key x) k then App.withStatus x s else x) l.

(** The history without the sessions whose identifier is [sid]. *)
Definition otherSessions (sid : string) (h : list HistoryItem) : list HistoryItem :=
  filter (fun item => negb (String.eqb (id item) sid)) h.

(** The requests to the gateway among the events, oldest first. *)
Definition callsOf (evs : list GeneratorPage.Event) : list GeneratorPage.Event :=
  rev (filter (fun ev => match ev with
                         | GeneratorPage.EvCall _ _ _ => true
                         | _ => false
                         end) evs).

(** The state in which the [while] loop goes on after a failure of the
    call with [apiKey] that is not a prompt rejection ([rateLimit] tells
    which branch was taken), from the state [st2] in which the call
    settled. *)
Definition afterFailure {W : Type} (env : GeneratorPage.Env W) (apiKeys0 : list ApiKey)
    (apiKey : ApiKey) (rateLimit : bool) (st2 : GeneratorPage.PageState W)
    : GeneratorPage.PageState W :=
  let st4 :=
    GeneratorPage.setStatusMessage
      (if rateLimit then GeneratorPage.statusCoolingDown apiKey
       else GeneratorPage.statusFailed apiKey)
      (GeneratorPage.updateApiKeyStatus apiKeys0 (key apiKey) RateLimited st2) in
  if rateLimit && negb (GeneratorPage.stopRequest st4)
  then GeneratorPage.awaitTimeout env 2000 st4
  else st4.

(** The status lines the [while] loop sets. *)
Inductive attemptStatus : string -> Prop :=
| status_trying (i total : nat) (apiKey : ApiKey) :
    attemptStatus (GeneratorPage.statusTrying i total apiKey)
| status_cooling (apiKey : ApiKey) :
    attemptStatus (GeneratorPage.statusCoolingDown apiKey)
| status_failed (apiKey : ApiKey) :
    attemptStatus (GeneratorPage.statusFailed apiKey).

(** A request of a run started with the prompts [ps], the Active keys
    [active] and the image count [n]. *)
Definition expectedCall (ps : list string) (active : list ApiKey) (n : nat)
    (ev : GeneratorPage.Event) : Prop :=
  match ev with
  | GeneratorPage.EvCall p k m =>
      In p ps /\ (exists apiKey, In apiKey active /\ key apiKey = k) /\ m = n
  | _ => True
  end.

(** A text field left empty, for the engine's messages that play no part. *)
Definition noText (_ : string) : string := EmptyString.

End Notions.

(* ================================================================== *)
(** * Properties *)
(* ================================================================== *)

(** ** The session recorder *)

Module HistoryFacts.
Import Js Types ApiService Notions.

Lemma findIndex_setResultsAt (sessionId : string) (rs : list GenerationResult) :
  forall (h : list HistoryItem) (i : nat),
    findIndex (hasId sessionId) (setResultsAt i rs h) = findIndex (hasId sessionId) h.
Proof.
  induction h as [|item rest IH]; intros [|i]; simpl; try reflexivity.
  unfold hasId at 1 3. destruct (String.eqb (id item) sessionId); [reflexivity|].
  now rewrite IH.
Qed.

Lemma setResultsAt_twice (rs : list GenerationResult) :
  forall (h : list HistoryItem) (i : nat),
    setResultsAt i rs (setResultsAt i rs h) = setResultsAt i rs h.
Proof.
  induction h as [|item rest IH]; intros [|i]; simpl; try reflexivity.
  now rewrite IH.
Qed.

Lemma findIndex_absent (sessionId : string) :
  forall h : list HistoryItem,
    (forall item, In item h -> id item <> sessionId) ->
    findIndex (hasId sessionId) h = None.
Proof.
  induction h as [|item rest IH]; intros Habs; simpl; [reflexivity|].
  unfold hasId at 1.
  destruct (String.eqb_spec (id item) sessionId) as [E|_].
  - exfalso. apply (Habs item); [now left | exact E].
  - rewrite IH; [reflexivity|]. intros x Hx. apply Habs. now right.
Qed.

Lemma findIndex_first (sessionId : string) :
  forall (pre : list HistoryItem) (item : HistoryItem) (post : list HistoryItem),
    id item = sessionId ->
    (forall x, In x pre -> id x <> sessionId) ->
    findIndex (hasId sessionId) (pre ++ item :: post) = Some (List.length pre).
Proof.
  induction pre as [|x pre IH]; intros item post Hid Hpre; simpl.
  - unfold hasId. rewrite Hid, String.eqb_refl. reflexivity.
  - unfold hasId at 1.
    destruct (String.eqb_spec (id x) sessionId) as [E|_].
    + exfalso. apply (Hpre x); [now left | exact E].
    + rewrite IH; [reflexivity | exact Hid |]. intros y Hy. apply Hpre. now right.
Qed.

Lemma setResultsAt_split (rs : list GenerationResult) :
  forall (pre : list HistoryItem) (item : HistoryItem) (post : list HistoryItem),
    setResultsAt (List.length pre) rs (pre ++ item :: post)
    = (pre ++ mkHistoryItem (id item) (date item) rs :: post)%list.
Proof.
  induction pre as [|x pre IH]; intros item post; simpl; [reflexivity|].
  now rewrite IH.
Qed.

Lemma find_setResultsAt (sessionId : string) (rs : list GenerationResult) :
  forall (h : list HistoryItem) (i : nat),
    findIndex (hasId sessionId) h = Some i ->
    sessionResults sessionId (setResultsAt i rs h) = Some rs.
Proof.
  unfold sessionResults.
  induction h as [|item rest IH]; intros i Hi; simpl in *; [discriminate|].
  destruct (hasId sessionId item) eqn:E.
  - injection Hi as <-. simpl. unfold hasId in *. simpl. rewrite E. reflexivity.
  - destruct (findIndex (hasId sessionId) rest) as [j|] eqn:F; [|discriminate].
    injection Hi as <-. simpl. rewrite E. now apply IH.
Qed.

Lemma sessionResults_updateHistory (now sessionId : string)
    (rs : list GenerationResult) (ls : Storage) :
  sessionResults sessionId (fst (updateHistory now sessionId rs ls)) = Some rs.
Proof.
  unfold updateHistory. simpl. fold (hasId sessionId).
  destruct (findIndex (hasId sessionId) (loadHistory ls)) as [i|] eqn:F.
  - now apply find_setResultsAt.
  - unfold sessionResults. simpl. unfold hasId. simpl.
    rewrite String.eqb_refl. reflexivity.
Qed.

Lemma loadHistory_updateHistory (now sessionId : string)
    (rs : list GenerationResult) (ls : Storage) :
  loadHistory (snd (updateHistory now sessionId rs ls))
  = fst (updateHistory now sessionId rs ls).
Proof. reflexivity. Qed.

(** An upsert keeps the session identifiers of the history distinct. *)
Lemma ids_setResultsAt (rs : list GenerationResult) :
  forall (h : list HistoryItem) (i : nat), map id (setResultsAt i rs h) = map id h.
Proof.
  induction h as [|item rest IH]; intros [|i]; simpl; try reflexivity.
  now rewrite IH.
Qed.

Lemma findIndex_none_notin (sessionId : string) :
  forall h : list HistoryItem,
    findIndex (hasId sessionId) h = None -> ~ In sessionId (map id h).
Proof.
  induction h as [|item rest IH]; simpl; intros H; [tauto|].
  unfold hasId at 1 in H.
  destruct (String.eqb_spec (id item) sessionId) as [_|Hne]; [discriminate|].
  destruct (findIndex (hasId sessionId) rest); [discriminate|].
  intros [E|E]; [contradiction | now apply IH].
Qed.

Lemma updateHistory_ids_distinct (now sessionId : string)
    (rs : list GenerationResult) (ls : Storage) :
  NoDup (map id (loadHistory ls)) ->
  NoDup (map id (fst (updateHistory now sessionId rs ls))).
Proof.
  intros Hnd. unfold updateHistory. cbn [fst]. fold (hasId sessionId).
  destruct (findIndex (hasId sessionId) (loadHistory ls)) as [i|] eqn:F.
  - now rewrite ids_setResultsAt.
  - cbn. constructor; [now apply findIndex_none_notin | exact Hnd].
Qed.

(** C7. [updateHistory] is idempotent: a second call with the same
    session identifier and outcomes, whatever the clock then reads,
    returns the history the first call returned and leaves the storage
    as the first call left it; no entry is added and none is changed. *)
Theorem updateHistory_idempotent (now1 now2 sessionId : string)
    (rs : list GenerationResult) (ls : Storage) :
  updateHistory now2 sessionId rs (snd (updateHistory now1 sessionId rs ls))
  = updateHistory now1 sessionId rs ls.
Proof.
  unfold updateHistory at 1. rewrite loadHistory_updateHistory.
  unfold updateHistory. simpl. fold (hasId sessionId).
  destruct (findIndex (hasId sessionId) (loadHistory ls)) as [i|] eqn:F.
  - rewrite findIndex_setResultsAt, F, setResultsAt_twice. reflexivity.
  - assert (E : hasId sessionId (mkHistoryItem sessionId now1 rs) = true)
      by (unfold hasId; simpl; apply String.eqb_refl).
    cbn [findIndex]. rewrite !E. reflexivity.
Qed.

(** C8. An upsert of a session that the history does not hold puts the
    new entry at the head, before the entries that were there; an upsert
    of a session that it holds replaces the outcome sequence of that
    entry (the first with the identifier) where it stands and leaves
    every other entry, and the order, as they were.  Either way the
    result is what is stored. *)
Theorem updateHistory_position (now sessionId : string)
    (rs : list GenerationResult) (ls : Storage) :
  storedHistory (snd (updateHistory now sessionId rs ls))
    = Some (fst (updateHistory now sessionId rs ls))
  /\ ((forall item, In item (loadHistory ls) -> id item <> sessionId) ->
      fst (updateHistory now sessionId rs ls)
      = mkHistoryItem sessionId now rs :: loadHistory ls)
  /\ (forall pre item post,
        loadHistory ls = (pre ++ item :: post)%list ->
        id item = sessionId ->
        (forall x, In x pre -> id x <> sessionId) ->
        fst (updateHistory now sessionId rs ls)
        = (pre ++ mkHistoryItem (id item) (date item) rs :: post)%list).
Proof.
  split; [reflexivity|]. split.
  - intros Habs. unfold updateHistory. simpl. fold (hasId sessionId).
    now rewrite findIndex_absent.
  - intros pre item post Hh Hid Hpre. unfold updateHistory. simpl.
    fold (hasId sessionId). rewrite Hh.
    rewrite findIndex_first by assumption.
    apply setResultsAt_split.
Qed.

End HistoryFacts.

(** ** The dispatcher *)

Module GatewayFacts.
Import JsString Js Types ApiService Notions.

(** [stripWs] is given fuel enough: what it returns starts with no white
    space character. *)
Lemma whiteSpaceLen_le (rev : bool) (bs : list nat) :
  whiteSpaceLen rev bs <= List.length bs.
Proof.
  destruct bs as [|a [|b [|c tl]]]; cbn [whiteSpaceLen List.length].
  - lia.
  - destruct (_ || _); lia.
  - destruct (_ || _); [lia|]. destruct (if rev then _ else _); lia.
  - destruct (_ || _); [lia|]. destruct (if rev then _ else _); [lia|].
    match goal with |- (if ?x then _ else _) <= _ => destruct x end; lia.
Qed.

Lemma stripWs_done (rev : bool) :
  forall (fuel : nat) (bs : list nat),
    List.length bs <= fuel -> whiteSpaceLen rev (stripWs rev fuel bs) = 0.
Proof.
  induction fuel as [|fuel IH]; intros bs Hlen.
  - destruct bs; [reflexivity | cbn in Hlen; lia].
  - cbn [stripWs]. destruct (whiteSpaceLen rev bs) as [|n] eqn:E; [exact E|].
    apply IH. rewrite length_skipn.
    pose proof (whiteSpaceLen_le rev bs). lia.
Qed.

Lemma whiteSpaceLen_app (c rest : list nat) :
  isWhiteSpaceChar c = true ->
  whiteSpaceLen false (c ++ rest) = List.length c.
Proof.
  unfold isWhiteSpaceChar. intros H.
  apply andb_true_iff in H as [Hpos H]. apply Nat.eqb_eq in H.
  destruct c as [|a [|b [|c [|d tl]]]]; cbn [List.length] in *.
  - discriminate.
  - cbn [whiteSpaceLen app] in *.
    destruct ((9 <=? a) && (a <=? 13) || (a =? 32)); [reflexivity | discriminate].
  - cbn [whiteSpaceLen app] in *.
    destruct ((9 <=? a) && (a <=? 13) || (a =? 32)); [discriminate|].
    destruct ((a =? 194) && (b =? 160)); [reflexivity | discriminate].
  - cbn [whiteSpaceLen app] in *.
    destruct ((9 <=? a) && (a <=? 13) || (a =? 32)); [discriminate|].
    destruct ((a =? 194) && (b =? 160)); [discriminate|].
    exact H.
  - exfalso. cbn [whiteSpaceLen] in H.
    destruct ((9 <=? a) && (a <=? 13) || (a =? 32)); [discriminate|].
    destruct ((a =? 194) && (b =? 160)); [discriminate|].
    match type of H with (if ?x then _ else _) = _ => destruct x end; discriminate.
Qed.

Lemma skipn_char (c rest : list nat) : skipn (List.length c) (c ++ rest) = rest.
Proof. induction c; simpl; auto. Qed.

Lemma stripWs_whiteSpaceOnly (bs : list nat) :
  WhiteSpaceOnly bs ->
  forall fuel, List.length bs <= fuel -> stripWs false fuel bs = [].
Proof.
  induction 1 as [|c rest Hc Hrest IH]; intros fuel Hfuel.
  - destruct fuel; reflexivity.
  - pose proof (whiteSpaceLen_app c rest Hc) as Hlen.
    unfold isWhiteSpaceChar in Hc. apply andb_true_iff in Hc as [Hpos _].
    apply Nat.ltb_lt in Hpos.
    rewrite length_app in Hfuel.
    destruct fuel as [|fuel]; [lia|].
    cbn [stripWs]. rewrite Hlen.
    destruct (List.length c) as [|n] eqn:E; [lia|].
    rewrite <- E, skipn_char. apply IH. lia.
Qed.

Lemma length_bytes (s : string) : List.length (bytes s) = String.length s.
Proof.
  unfold bytes. rewrite length_map.
  induction s; simpl; auto.
Qed.

Lemma trim_whiteSpaceOnly (s : string) :
  WhiteSpaceOnly (bytes s) -> trim s = EmptyString.
Proof.
  intros H. unfold trim.
  rewrite (stripWs_whiteSpaceOnly _ H) by (rewrite length_bytes; lia).
  reflexivity.
Qed.

Section Dispatch.
Variable Net : Type.
Variable gemini : string -> string -> nat -> Net -> Settled * Net.
Variable openai : string -> string -> Net -> Settled * Net.

(** C10. Whatever the prompt, the image count and the service, and
    whatever the providers would do: [generateImages] with a key that is
    empty or made of white space only throws the error 'A valid API key
    must be provided.' and sends nothing to a provider; with a service
    outside the enum it throws as well, and sends nothing either. *)
Theorem generateImages_guards (prompt apiKey : string) (numImages : nat)
    (service : AIService) (g : Gateway Net) :
  (WhiteSpaceOnly (bytes apiKey) ->
   generateImages Net gemini openai prompt apiKey numImages service g
   = (inr (JError "A valid API key must be provided."), g))
  /\ (forall shown,
        exists thrown,
          generateImages Net gemini openai prompt apiKey numImages
            (OtherService shown) g
          = (inr (JError thrown), g)).
Proof.
  split.
  - intros H. unfold generateImages.
    rewrite (trim_whiteSpaceOnly _ H). cbn [isEmpty].
    rewrite orb_true_r. reflexivity.
  - intros shown. unfold generateImages.
    destruct (isEmpty apiKey || isEmpty (trim apiKey)).
    + eexists. reflexivity.
    + cbn. eexists. reflexivity.
Qed.
End Dispatch.

(** A key of a space, a no-break space, a tab and a line feed, with any
    service and any providers. *)
Lemma generateImages_guards_witness :
  WhiteSpaceOnly (bytes (ofBytes [32; 194; 160; 9; 10]))
  /\ generateImages unit (fun _ _ _ n => (inl ["img"], n)) (fun _ _ n => (inl ["img"], n))
       "a cat" (ofBytes [32; 194; 160; 9; 10]) 4 Gemini (mkGateway tt [])
     = (inr (JError "A valid API key must be provided."), mkGateway tt []).
Proof.
  assert (H : WhiteSpaceOnly (bytes (ofBytes [32; 194; 160; 9; 10]))).
  { change (WhiteSpaceOnly ([32] ++ [194; 160] ++ [9] ++ [10] ++ [])).
    repeat (apply ws_cons; [reflexivity|]). apply ws_nil. }
  split; [exact H|].
  exact (proj1 (generateImages_guards unit _ _ _ _ _ _ _) H).
Defined.

End GatewayFacts.

(** ** Failure classification *)

Module ClassifierFacts.
Import JsString Js Types ApiService Notions.

Lemma isPromptError_textual (e : JsValue) (m : string) :
  getErrorMessage e = JStr m ->
  isPromptError e
  = Some (includes "prompt" (toLowerCase m) || includes "safety" (toLowerCase m)).
Proof. intros H. unfold isPromptError. rewrite H. reflexivity. Qed.


(** The markers of a rate limit: the status [RESOURCE_EXHAUSTED], the
    code [429] or ['rate_limit_exceeded'], or the wording of the
    message. *)
Lemma isRateLimitError_markers (e : JsValue) :
  truthy e = true ->
  let details := orElse (getProp e "error") e in
  getProp details "status" = JStr "RESOURCE_EXHAUSTED"
  \/ getProp details "code" = JNum 429
  \/ getProp details "code" = JStr "rate_limit_exceeded"
  \/ (exists m, getErrorMessage e = JStr m
                /\ (includes "quota" (toLowerCase m)
                    || includes "rate limit" (toLowerCase m)
                    || includes "resource exhausted" (toLowerCase m)) = true) ->
  isRateLimitError e = Some true.
Proof.
  intros Ht details H. unfold isRateLimitError. rewrite Ht. cbn [negb].
  fold details.
  destruct H as [H | [H | [H | [m [Hm H]]]]].
  - rewrite H. reflexivity.
  - rewrite H. cbn. rewrite orb_true_r. reflexivity.
  - rewrite H. cbn. destruct (_ || _); reflexivity.
  - destruct (strictEqStr (getProp details "status") _ || _); [reflexivity|].
    destruct (strictEqStr _ _); [reflexivity|].
    rewrite Hm. cbn [callToLowerCase]. now rewrite H.
Qed.

End ClassifierFacts.

(** ** The generation loop *)

Module LoopFacts.
Import JsString Js Types ApiService GeneratorPage Notions ClassifierFacts.

Section Loop.
Variable W : Type.
Variable env : Env W.

Local Abbreviation St := (PageState W).

Lemma quiet_refl (st : St) : quiet st st.
Proof. unfold quiet. auto. Qed.

Lemma quiet_trans (a b c : St) : quiet a b -> quiet b c -> quiet a c.
Proof.
  unfold quiet. intros (R1 & H1 & S1 & T1) (R2 & H2 & S2 & T2).
  repeat split; try congruence. auto.
Qed.

Lemma quiet_setStatusMessage (m : string) (st : St) :
  quiet st (setStatusMessage m st).
Proof. unfold quiet. cbn. auto. Qed.

Lemma quiet_setCurrentKeyIndex (i : nat) (st : St) :
  quiet st (setCurrentKeyIndex i st).
Proof. unfold quiet. cbn. auto. Qed.

Lemma quiet_updateApiKeyStatus (apiKeys0 : list ApiKey) (k : string)
    (s : ApiKeyStatus) (st : St) :
  quiet st (updateApiKeyStatus apiKeys0 k s st).
Proof. unfold quiet. cbn. auto. Qed.

Lemma quiet_suspended (clicked : bool) (st : St) : quiet st (suspended clicked st).
Proof. unfold quiet. destruct clicked; cbn; auto. Qed.

Lemma awaitGenerateImages_frame (p k : string) (n : nat) (st st2 : St) (r : Settled) :
  awaitGenerateImages env p k n st = (r, st2) ->
  app st2 = app st
  /\ trace st2 = EvCall p k n :: trace st
  /\ numImages st2 = numImages st
  /\ (stopRequest st = true -> stopRequest st2 = true)
  /\ quiet st st2.
Proof.
  unfold awaitGenerateImages.
  destruct (callGateway env p k n (world st)) as [reply w].
  intros H. injection H as _ <-.
  unfold quiet. destruct (stopClicked reply); cbn; repeat split; auto;
    intros sid rs [E|E]; (discriminate || assumption).
Qed.

Lemma awaitTimeout_frame (ms : nat) (st : St) :
  app (awaitTimeout env ms st) = app st
  /\ trace (awaitTimeout env ms st) = EvWait ms :: trace st
  /\ (stopRequest st = true -> stopRequest (awaitTimeout env ms st) = true)
  /\ (fst (sleep env ms (world st)) = false ->
      stopRequest (awaitTimeout env ms st) = stopRequest st)
  /\ quiet st (awaitTimeout env ms st).
Proof.
  unfold awaitTimeout.
  destruct (sleep env ms (world st)) as [clicked w].
  unfold quiet. destruct clicked; cbn; repeat split; auto;
    try discriminate;
    intros sid rs [E|E]; (discriminate || assumption).
Qed.

Lemma selectedKey_some (apiKeys0 : list ApiKey) (k : nat) (apiKey : ApiKey) :
  selectedKey apiKeys0 k = Some apiKey ->
  (List.length (filter isActive apiKeys0) =? 0) = false
  /\ In apiKey apiKeys0 /\ isActive apiKey = true.
Proof.
  unfold selectedKey. intros H.
  pose proof (nth_error_In _ _ H) as Hin.
  apply filter_In in Hin as [Hin Hact].
  split; [|split; assumption].
  destruct (filter isActive apiKeys0); [|reflexivity].
  destruct (k mod List.length (@nil ApiKey)); discriminate.
Qed.

Lemma selectedKey_total (apiKeys0 : list ApiKey) (k : nat) :
  (List.length (filter isActive apiKeys0) =? 0) = false ->
  exists apiKey, selectedKey apiKeys0 k = Some apiKey.
Proof.
  intros H. apply Nat.eqb_neq in H. unfold selectedKey.
  destruct (nth_error (filter isActive apiKeys0)
              (k mod List.length (filter isActive apiKeys0))) as [a|] eqn:E; [eauto|].
  apply nth_error_None in E.
  pose proof (Nat.mod_upper_bound k (List.length (filter isActive apiKeys0)) H). lia.
Qed.

(** One pass of the [while] loop whose call fails with a prompt
    rejection. *)
Lemma whileLoop_rejection (apiKeys0 : list ApiKey) (i total : nat) (prompt0 : string)
    (b : nat) (v : Attempt) (st st2 : St) (apiKey : ApiKey) (e : JsValue) :
  stopRequest st = false ->
  selectedKey apiKeys0 (keyIdx v) = Some apiKey ->
  awaitGenerateImages env prompt0 (key apiKey) (numImages st)
    (setStatusMessage (statusTrying i total apiKey) st) = (inr e, st2) ->
  isPromptError e = Some true ->
  whileLoop env apiKeys0 i total prompt0 (S b) v st
  = (Returned,
     mkAttempt (Some (mkResult prompt0 [] (getErrorMessage e))) (success v) (attempts v)
               (keyIdx v mod List.length (filter isActive apiKeys0)),
     st2)
  /\ app st2 = app st
  /\ trace st2 = EvCall prompt0 (key apiKey) (numImages st) :: trace st.
Proof.
  intros Hstop Hsel Hcall Hprompt.
  destruct (selectedKey_some _ _ _ Hsel) as (Hlen & _ & _).
  destruct (awaitGenerateImages_frame _ _ _ _ _ _ Hcall) as (Happ & Htr & _).
  split; [|split; assumption].
  cbn [whileLoop]. rewrite Hstop, Hlen.
  unfold selectedKey in Hsel. rewrite Hsel, Hcall, Hprompt. reflexivity.
Qed.

(** One pass whose call fails otherwise: the key is degraded in the pool
    computed from [apiKeys0], the timer is awaited for a rate limit
    unless Stop is set, and the loop goes on with the next index. *)
Lemma whileLoop_key_failure (apiKeys0 : list ApiKey) (i total : nat) (prompt0 : string)
    (b : nat) (v : Attempt) (st st2 : St) (apiKey : ApiKey) (e : JsValue) (rl : bool) :
  stopRequest st = false ->
  selectedKey apiKeys0 (keyIdx v) = Some apiKey ->
  awaitGenerateImages env prompt0 (key apiKey) (numImages st)
    (setStatusMessage (statusTrying i total apiKey) st) = (inr e, st2) ->
  isPromptError e = Some false ->
  isRateLimitError e = Some rl ->
  exists st5 : St,
    whileLoop env apiKeys0 i total prompt0 (S b) v st
    = whileLoop env apiKeys0 i total prompt0 b
        (mkAttempt (promptResult v) (success v) (attempts v + 1)
                   (keyIdx v mod List.length (filter isActive apiKeys0) + 1)) st5
    /\ App.apiKeys (app st5)
       = map (fun k => if String.eqb (key k) (key apiKey)
                       then App.withStatus k RateLimited else k) apiKeys0
    /\ trace st5
       = ((if rl && negb (stopRequest st2) then [EvWait 2000] else [])
            ++ EvCall prompt0 (key apiKey) (numImages st) :: trace st)%list
    /\ (stopRequest st2 = true -> stopRequest st5 = true)
    /\ ((forall ms w, fst (sleep env ms w) = false) -> stopRequest st5 = stopRequest st2)
    /\ quiet st st5.
Proof.
  intros Hstop Hsel Hcall Hprompt Hrate.
  destruct (selectedKey_some _ _ _ Hsel) as (Hlen & _ & _).
  destruct (awaitGenerateImages_frame _ _ _ _ _ _ Hcall) as (Happ & Htr & _ & _ & Hq).
  assert (Hq2 : quiet st st2)
    by (eapply quiet_trans; [apply quiet_setStatusMessage | exact Hq]).
  cbn [whileLoop]. rewrite Hstop, Hlen.
  unfold selectedKey in Hsel. rewrite Hsel, Hcall, Hprompt, Hrate.
  destruct rl.
  - set (st4 := setStatusMessage (statusCoolingDown apiKey)
                  (updateApiKeyStatus apiKeys0 (key apiKey) RateLimited st2)).
    assert (Hs4 : stopRequest st4 = stopRequest st2) by reflexivity.
    assert (Ht4 : trace st4 = trace st2) by reflexivity.
    assert (Hq4 : quiet st st4).
    { eapply quiet_trans; [exact Hq2|]. unfold st4.
      eapply quiet_trans; [apply quiet_updateApiKeyStatus | apply quiet_setStatusMessage]. }
    rewrite Hs4. cbn [andb].
    destruct (stopRequest st2) eqn:Es; cbn [negb].
    + exists st4. split; [reflexivity|]. split; [reflexivity|].
      split; [rewrite Ht4, Htr; reflexivity|]. split; [intros _; exact Hs4 |].
      split; [intros _; exact Hs4 | exact Hq4].
    + destruct (awaitTimeout_frame 2000 st4) as (Ha & Ht & _ & Hcalm & Hq5).
      exists (awaitTimeout env 2000 st4). split; [reflexivity|].
      split; [rewrite Ha; reflexivity|].
      split; [rewrite Ht, Ht4, Htr; reflexivity|].
      split; [discriminate|].
      split; [intros Hs; rewrite Hcalm by apply Hs; exact Hs4
             | eapply quiet_trans; eassumption].
  - set (st4 := setStatusMessage (statusFailed apiKey)
                  (updateApiKeyStatus apiKeys0 (key apiKey) RateLimited st2)).
    exists st4. split; [reflexivity|]. split; [reflexivity|].
    split; [cbn; rewrite Htr; reflexivity|]. split; [intros H; exact H|].
    split; [reflexivity|].
    apply (quiet_trans _ _ _ Hq2). unfold st4.
    eapply quiet_trans; [apply quiet_updateApiKeyStatus | apply quiet_setStatusMessage].
Qed.

(** What the [while] loop keeps, whatever the environment does. *)
Lemma whileLoop_inv (apiKeys0 : list ApiKey) (i total : nat) (prompt0 : string) :
  forall (b : nat) (v : Attempt) (st : St) (c : Completion) (v' : Attempt) (st' : St),
    whileLoop env apiKeys0 i total prompt0 b v st = (c, v', st') ->
    quiet st st'
    /\ (forall r, promptResult v' = Some r -> promptResult v = Some r \/ prompt r = prompt0)
    /\ (success v' = true -> success v = true \/ exists r, promptResult v' = Some r)
    /\ (stopRequest st = true -> st' = st).
Proof.
  induction b as [|b IH]; intros v st c v' st' H.
  - cbn in H. injection H as <- <- <-. repeat split; auto using quiet_refl.
  - destruct (stopRequest st) eqn:Hs.
    { cbn [whileLoop] in H. rewrite Hs in H. injection H as <- <- <-.
      repeat split; auto using quiet_refl. }
    destruct (List.length (filter isActive apiKeys0) =? 0) eqn:Hl.
    { cbn [whileLoop] in H. rewrite Hs, Hl in H. injection H as <- <- <-.
      split; [|split; [|split]]; auto using quiet_refl; try discriminate.
      cbn. intros r E. injection E as <-. now right. }
    destruct (selectedKey_total apiKeys0 (keyIdx v) Hl) as [apiKey Hsel].
    destruct (awaitGenerateImages env prompt0 (key apiKey) (numImages st)
                (setStatusMessage (statusTrying i total apiKey) st))
      as [r st2] eqn:Hcall.
    destruct (awaitGenerateImages_frame _ _ _ _ _ _ Hcall) as (_ & _ & _ & _ & Hq).
    assert (Hq2 : quiet st st2)
      by (eapply quiet_trans; [apply quiet_setStatusMessage | exact Hq]).
    destruct r as [generated | e].
    + cbn [whileLoop] in H. rewrite Hs, Hl in H.
      unfold selectedKey in Hsel. rewrite Hsel, Hcall in H. injection H as <- <- <-.
      split; [|split; [|split]]; try discriminate.
      * eapply quiet_trans; [exact Hq2 | apply quiet_setCurrentKeyIndex].
      * cbn. intros r E. injection E as <-. now right.
      * cbn. intros _. right. eauto.
    + destruct (isPromptError e) as [[|]|] eqn:Hp.
      * destruct (whileLoop_rejection apiKeys0 i total prompt0 b v st st2 apiKey e
                    Hs Hsel Hcall Hp) as (E & _).
        rewrite E in H. injection H as <- <- <-.
        split; [|split; [|split]]; try discriminate; auto.
        cbn. intros r E'. injection E' as <-. now right.
      * destruct (isRateLimitError e) as [rl|] eqn:Hr.
        -- destruct (whileLoop_key_failure apiKeys0 i total prompt0 b v st st2 apiKey e rl
                       Hs Hsel Hcall Hp Hr) as (st5 & E & _ & _ & _ & _ & Hq5).
           rewrite E in H. apply IH in H. destruct H as (Hq' & Hpr & Hsu & _).
           split; [|split; [|split]]; try discriminate; auto.
           eapply quiet_trans; eassumption.
        -- cbn [whileLoop] in H. rewrite Hs, Hl in H.
           unfold selectedKey in Hsel. rewrite Hsel, Hcall, Hp, Hr in H.
           injection H as <- <- <-. split; [|split; [|split]]; try discriminate; auto.
      * cbn [whileLoop] in H. rewrite Hs, Hl in H.
        unfold selectedKey in Hsel. rewrite Hsel, Hcall, Hp in H.
        injection H as <- <- <-. split; [|split; [|split]]; try discriminate; auto.
Qed.

(** What recording a resolved prompt does. *)
Lemma record_facts (sessionId : string) (r : GenerationResult)
    (fr : list GenerationResult) (st : St) :
  let emitted := hasImage r || truthy (error r) in
  let st' := snd (record env sessionId r fr st) in
  fst (record env sessionId r fr st) = (fr ++ [r])%list
  /\ results st' = (results st ++ [r])%list
  /\ stopRequest st' = stopRequest st
  /\ App.apiKeys (app st') = App.apiKeys (app st)
  /\ trace st'
     = ((if emitted then [EvUpdate sessionId (fr ++ [r])] else []) ++ trace st)%list
  /\ (if emitted && existsb hasImage (fr ++ [r])
      then (App.history (app st'), App.localStorage (app st'))
           = updateHistory (localeNow env (world st)) sessionId (fr ++ [r])
               (App.localStorage (app st))
      else app st' = app st).
Proof.
  cbn zeta. unfold record, hasImage.
  destruct ((0 <? List.length (images r)) || truthy (error r)); cbn [fst snd andb].
  - unfold onGenerationUpdate, App.handleGenerationUpdate.
    cbn -[Nat.ltb existsb updateHistory].
    destruct (existsb _ (fr ++ [r])).
    + destruct (updateHistory _ _ _ _) as [h ls]. cbn. auto 10.
    + cbn. auto 10.
  - cbn. auto 10.
Qed.

Lemma journalled_of_quiet (sid : string) (final : list GenerationResult) (a b : St) :
  quiet a b -> journalled sid final a b.
Proof.
  unfold quiet, journalled. intros (_ & _ & S1 & T1). split; auto.
Qed.

Lemma journalled_trans (sid : string) (final : list GenerationResult) (a b c : St) :
  journalled sid final a b -> journalled sid final b c -> journalled sid final a c.
Proof.
  unfold journalled. intros (T1 & S1) (T2 & S2). split.
  - intros sid' rs H. destruct (T2 _ _ H) as [H'|H']; auto.
  - destruct S2 as [S2|S2]; [|now right].
    destruct S1 as [S1|[j S1]]; [left; congruence|].
    right. exists j. unfold loadHistory in *. now rewrite S2.
Qed.

Lemma journalled_record (sid : string) (r : GenerationResult)
    (fr rest : list GenerationResult) (st : St) :
  journalled sid ((fr ++ [r]) ++ rest) st (snd (record env sid r fr st)).
Proof.
  assert (Hpre : (fr ++ [r])%list
                 = firstn (List.length (fr ++ [r])) ((fr ++ [r]) ++ rest)).
  { rewrite firstn_app, Nat.sub_diag, firstn_all. cbn. now rewrite app_nil_r. }
  destruct (record_facts sid r fr st) as (_ & _ & _ & _ & Ht & Hs).
  cbn zeta in *. unfold journalled. split.
  - intros sid' rs H. rewrite Ht in H.
    destruct (hasImage r || truthy (error r)); cbn in H; [|now left].
    destruct H as [H|H]; [|now left].
    right. injection H as <- <-. split; [reflexivity|]. eexists. exact Hpre.
  - destruct ((hasImage r || truthy (error r)) && existsb hasImage (fr ++ [r])).
    + right. exists (List.length (fr ++ [r])). rewrite <- Hpre.
      assert (E : App.localStorage (app (snd (record env sid r fr st)))
                  = snd (updateHistory (localeNow env (world st)) sid (fr ++ [r])
                           (App.localStorage (app st)))) by now rewrite <- Hs.
      rewrite E. rewrite HistoryFacts.loadHistory_updateHistory.
      apply HistoryFacts.sessionResults_updateHistory.
    + left. now rewrite Hs.
Qed.

(** The resolved prompt of one pass of the [for] loop. *)
Lemma resolved_prompt (prompt0 : string) (v : Attempt) (r : GenerationResult) :
  (forall r', promptResult v = Some r' -> prompt r' = prompt0) ->
  match success v, promptResult v with
  | false, None => Some (allKeysFailed prompt0)
  | _, pr => pr
  end = Some r ->
  prompt r = prompt0.
Proof.
  intros Hv H. destruct (success v), (promptResult v) as [r'|];
    try discriminate; injection H as <-; auto.
Qed.

(** What the [for] loop keeps, whatever the environment does: the result
    sequence only grows, by outcomes of the prompts in their order, and
    what goes to [App] and to the storage is a prefix of it. *)
Lemma forLoop_journal (apiKeys0 : list ApiKey) (sid : string) (total : nat) :
  forall (todo : list string) (i : nat) (fr : list GenerationResult) (k : nat) (st : St)
         (c : Completion) (fr' : list GenerationResult) (k' : nat) (st' : St),
    forLoop env apiKeys0 sid total i todo fr k st = (c, fr', k', st') ->
    exists new,
      fr' = (fr ++ new)%list
      /\ results st' = (results st ++ new)%list
      /\ (exists j, map prompt new = firstn j todo)
      /\ journalled sid fr' st st'.
Proof.
  induction todo as [|prompt0 rest IH]; intros i fr k st c fr' k' st' H.
  - cbn in H. injection H as <- <- <- <-. exists [].
    rewrite !app_nil_r. split; [reflexivity|]. split; [reflexivity|].
    split; [now exists 0|]. apply journalled_of_quiet, quiet_refl.
  - cbn [forLoop] in H.
    destruct (stopRequest st) eqn:Hs.
    { injection H as <- <- <- <-. exists []. rewrite !app_nil_r.
      split; [reflexivity|]. split; [reflexivity|]. split; [now exists 0|].
      apply journalled_of_quiet, quiet_setStatusMessage. }
    destruct (whileLoop env apiKeys0 i total prompt0
                (List.length (filter isActive apiKeys0)) (mkAttempt None false 0 k)
                (setStatusMessage (statusProcessing i total prompt0) st))
      as [[c0 v] st2] eqn:Hw.
    destruct (whileLoop_inv _ _ _ _ _ _ _ _ _ _ Hw) as (Hq & Hpr & Hsu & _).
    assert (Hq2 : quiet st st2)
      by (eapply quiet_trans; [apply quiet_setStatusMessage | exact Hq]).
    assert (Hnone : exists new : list GenerationResult,
               fr = (fr ++ new)%list /\ results st2 = (results st ++ new)%list
               /\ (exists j, map prompt new = firstn j (prompt0 :: rest))
               /\ journalled sid fr st st2).
    { exists []. rewrite !app_nil_r. split; [reflexivity|].
      split; [apply Hq2|]. split; [now exists 0|]. now apply journalled_of_quiet. }
    destruct c0; [|injection H as <- <- <- <-; exact Hnone].
    destruct (stopRequest st2) eqn:Hs2; [injection H as <- <- <- <-; exact Hnone|].
    destruct (match success v, promptResult v with
              | false, None => Some (allKeysFailed prompt0)
              | _, pr => pr
              end) as [r|] eqn:Hres.
    + assert (Hp : prompt r = prompt0).
      { apply (resolved_prompt prompt0 v r); [|exact Hres].
        intros r' E. destruct (Hpr r' E) as [E'|E']; [discriminate | exact E']. }
      destruct (record env sid r fr st2) as [fr1 st3] eqn:Hrec.
      destruct (record_facts sid r fr st2) as (Hf & Hr & _).
      cbn zeta in Hf, Hr. rewrite Hrec in Hf, Hr. cbn [fst snd] in Hf, Hr.
      apply IH in H. destruct H as (new & -> & Hres' & [j Hj] & Hjr).
      exists (r :: new). subst fr1.
      rewrite <- app_assoc in *. cbn [app] in *.
      split; [reflexivity|]. split.
      { rewrite Hres', Hr. destruct Hq2 as (-> & _). now rewrite <- app_assoc. }
      split.
      { exists (S j). cbn. now rewrite Hp, Hj. }
      apply (journalled_trans _ _ _ st2); [now apply journalled_of_quiet|].
      apply (journalled_trans _ _ _ st3); [|exact Hjr].
      pose proof (journalled_record sid r fr new st2) as Hj2.
      rewrite Hrec in Hj2. cbn [snd] in Hj2.
      rewrite <- app_assoc in Hj2. exact Hj2.
    + (* the loop ended with [success] set or with a result, or line 280
         supplied one: this branch does not arise *)
      exfalso. destruct (success v) eqn:Es, (promptResult v) eqn:Ep; try discriminate.
      destruct (Hsu eq_refl) as [E|[r E]]; discriminate.
Qed.

(** The exit of the [while] loop on an empty [currentActiveKeys] is taken
    only if the [apiKeys] the closure holds has no Active key: what the
    run itself marks Rate Limited does not bring it about. *)
Lemma exhaustion_exit_needs_empty_snapshot (apiKeys0 : list ApiKey) (i total : nat)
    (prompt0 : string) :
  (List.length (filter isActive apiKeys0) =? 0) = false ->
  forall (b : nat) (v : Attempt) (st : St) (c : Completion) (v' : Attempt) (st' : St),
    whileLoop env apiKeys0 i total prompt0 b v st = (c, v', st') ->
    promptResult v' = Some (allKeysRateLimited prompt0) ->
    promptResult v = Some (allKeysRateLimited prompt0).
Proof.
  intros Hl. induction b as [|b IH]; intros v st c v' st' H Hres.
  - cbn in H. injection H as <- <- <-. exact Hres.
  - destruct (stopRequest st) eqn:Hs.
    { cbn [whileLoop] in H. rewrite Hs in H. injection H as <- <- <-. exact Hres. }
    destruct (selectedKey_total apiKeys0 (keyIdx v) Hl) as [apiKey Hsel].
    destruct (awaitGenerateImages env prompt0 (key apiKey) (numImages st)
                (setStatusMessage (statusTrying i total apiKey) st))
      as [r st2] eqn:Hcall.
    destruct r as [generated | e].
    + cbn [whileLoop] in H. rewrite Hs, Hl in H.
      unfold selectedKey in Hsel. rewrite Hsel, Hcall in H. injection H as <- <- <-.
      discriminate.
    + destruct (isPromptError e) as [[|]|] eqn:Hp.
      * destruct (whileLoop_rejection apiKeys0 i total prompt0 b v st st2 apiKey e
                    Hs Hsel Hcall Hp) as (E & _).
        rewrite E in H. injection H as <- <- <-. cbn in Hres.
        unfold allKeysRateLimited in Hres. injection Hres as Hmsg.
        rewrite (isPromptError_textual e _ Hmsg) in Hp. discriminate.
      * destruct (isRateLimitError e) as [rl|] eqn:Hr.
        -- destruct (whileLoop_key_failure apiKeys0 i total prompt0 b v st st2 apiKey e rl
                       Hs Hsel Hcall Hp Hr) as (st5 & E & _).
           rewrite E in H. exact (IH _ _ _ _ _ H Hres).
        -- cbn [whileLoop] in H. rewrite Hs, Hl in H.
           unfold selectedKey in Hsel. rewrite Hsel, Hcall, Hp, Hr in H.
           injection H as <- <- <-. exact Hres.
      * cbn [whileLoop] in H. rewrite Hs, Hl in H.
        unfold selectedKey in Hsel. rewrite Hsel, Hcall, Hp in H.
        injection H as <- <- <-. exact Hres.
Qed.

(** *** Runs that are not cancelled *)




(** *** A run in which Stop is set *)

Lemma whileLoop_stopped (apiKeys0 : list ApiKey) (i total : nat) (prompt0 : string)
    (b : nat) (v : Attempt) (st : St) :
  stopRequest st = true ->
  whileLoop env apiKeys0 i total prompt0 b v st = (Returned, v, st).
Proof. intros Hs. destruct b; cbn [whileLoop]; [|rewrite Hs]; reflexivity. Qed.

Lemma forLoop_stopped (apiKeys0 : list ApiKey) (sid : string) (total i : nat)
    (prompt0 : string) (rest : list string) (fr : list GenerationResult) (k : nat)
    (st : St) :
  stopRequest st = true ->
  forLoop env apiKeys0 sid total i (prompt0 :: rest) fr k st
  = (Returned, fr, k, setStatusMessage "Generation stopped by user." st).
Proof. intros Hs. cbn [forLoop]. now rewrite Hs. Qed.

(** A run none of whose outcomes has an image stores nothing. *)
Lemma forLoop_no_image (apiKeys0 : list ApiKey) (sid : string) (total : nat) :
  forall (todo : list string) (i : nat) (fr : list GenerationResult) (k : nat) (st : St)
         (c : Completion) (fr' : list GenerationResult) (k' : nat) (st' : St),
    forLoop env apiKeys0 sid total i todo fr k st = (c, fr', k', st') ->
    existsb hasImage fr' = false ->
    App.history (app st') = App.history (app st)
    /\ storedHistory (App.localStorage (app st'))
       = storedHistory (App.localStorage (app st)).
Proof.
  induction todo as [|prompt0 rest IH]; intros i fr k st c fr' k' st' H Hno.
  - cbn in H. injection H as <- <- <- <-. auto.
  - cbn [forLoop] in H.
    destruct (stopRequest st) eqn:Hs.
    { injection H as <- <- <- <-. auto. }
    destruct (whileLoop env apiKeys0 i total prompt0
                (List.length (filter isActive apiKeys0)) (mkAttempt None false 0 k)
                (setStatusMessage (statusProcessing i total prompt0) st))
      as [[c0 v] st2] eqn:Hw.
    destruct (whileLoop_inv _ _ _ _ _ _ _ _ _ _ Hw) as ((_ & Hh & Hst & _) & _).
    cbn [app setStatusMessage] in Hh, Hst.
    destruct c0; [|injection H as <- <- <- <-; auto].
    destruct (stopRequest st2) eqn:Hs2; [injection H as <- <- <- <-; auto|].
    destruct (match success v, promptResult v with
              | false, None => Some (allKeysFailed prompt0)
              | _, pr => pr
              end) as [r|] eqn:Hres.
    + destruct (record env sid r fr st2) as [fr1 st3] eqn:Hrec.
      destruct (record_facts sid r fr st2) as (Hf & _ & _ & _ & _ & Hrule).
      cbn zeta in Hf, Hrule. rewrite Hrec in Hf, Hrule. cbn [fst snd] in Hf, Hrule.
      destruct (forLoop_journal _ _ _ _ _ _ _ _ _ _ _ _ H) as (new & Hfr & _).
      assert (Hpre : existsb hasImage (fr ++ [r]) = false).
      { subst fr' fr1. rewrite existsb_app in Hno. now apply orb_false_iff in Hno. }
      rewrite Hpre, andb_false_r in Hrule.
      destruct (IH _ _ _ _ _ _ _ _ H Hno) as (H1 & H2).
      rewrite H1, H2, Hrule. auto.
    + destruct (IH _ _ _ _ _ _ _ _ H Hno) as (H1 & H2).
      rewrite H1, H2. auto.
Qed.

Lemma handleGenerate_no_image (st : St) (c : Completion) (st' : St) :
  handleGenerate env st = (c, st') ->
  existsb hasImage (results st') = false ->
  App.history (app st') = App.history (app st)
  /\ storedHistory (App.localStorage (app st'))
     = storedHistory (App.localStorage (app st)).
Proof.
  unfold handleGenerate.
  destruct (isEmpty (trim (prompts st))); [intros H; injection H as <- <-; auto|].
  destruct (List.length (filter isActive (App.apiKeys (app st))) =? 0);
    [intros H; injection H as <- <-; auto|].
  set (st1 := setStatusMessage "Starting generation..."
                (setResults [] (setStopRequest false (setIsLoading true st)))).
  destruct (forLoop env (App.apiKeys (app st)) (isoNow env (world st1))
              (List.length (promptsToProcess (prompts st))) 0
              (promptsToProcess (prompts st)) [] (currentKeyIndex st) st1)
    as [[[c0 fr'] k'] st2] eqn:E.
  destruct (forLoop_journal _ _ _ _ _ _ _ _ _ _ _ _ E) as (new & Hfr & Hres & _).
  cbn [app] in Hfr. cbn [results st1 setStatusMessage setResults app] in Hres.
  assert (Hsame : results st2 = fr') by congruence.
  intros H Hno.
  assert (Hno2 : existsb hasImage fr' = false).
  { rewrite <- Hsame. destruct c0; injection H as <- <-; [|exact Hno].
    destruct (stopRequest st2); exact Hno. }
  destruct (forLoop_no_image _ _ _ _ _ _ _ _ _ _ _ _ E Hno2) as (H1 & H2).
  destruct c0; injection H as <- <-; [destruct (stopRequest st2)|]; cbn; auto.
Qed.

(** *** The properties of the loop *)


Lemma active_key_exists (keys : list ApiKey) :
  existsb isActive keys = true ->
  (List.length (filter isActive keys) =? 0) = false.
Proof.
  intros H. apply existsb_exists in H as (k & Hin & Hact).
  assert (Hf : In k (filter isActive keys)) by (apply filter_In; auto).
  destruct (filter isActive keys); [contradiction | reflexivity].
Qed.

Lemma firstn_full {A : Type} (j : nat) (l : list A) (new : list A) :
  new = firstn j l -> List.length new = List.length l -> new = l.
Proof.
  intros -> H. rewrite length_firstn in H.
  apply firstn_all2. lia.
Qed.


(** C3 (as the code has it). A resolved prompt is appended to the result
    sequence.  The accumulated sequence is sent to [App] exactly when the
    outcome has an image or a truthy error; [App] stores it, under the
    session identifier, exactly when it was sent and some outcome in it
    has an image, and the entry stored for the session then holds the
    whole sequence; otherwise the history and the storage stay as they
    were.  So a run none of whose outcomes has an image, whatever errors
    they carry, leaves the history and its stored copy as they were. *)
Theorem record_flush_rule (sessionId : string) (r : GenerationResult)
    (fr : list GenerationResult) (st : St) :
  let sent := hasImage r || truthy (error r) in
  let st' := snd (record env sessionId r fr st) in
  fst (record env sessionId r fr st) = (fr ++ [r])%list
  /\ results st' = (results st ++ [r])%list
  /\ trace st'
     = ((if sent then [EvUpdate sessionId (fr ++ [r])] else []) ++ trace st)%list
  /\ (if sent && existsb hasImage (fr ++ [r])
      then (App.history (app st'), App.localStorage (app st'))
           = updateHistory (localeNow env (world st)) sessionId (fr ++ [r])
               (App.localStorage (app st))
           /\ sessionResults sessionId
                (loadHistory (App.localStorage (app st'))) = Some (fr ++ [r])%list
      else app st' = app st)
  /\ (forall (st0 : St) (c : Completion) (st1 : St),
        handleGenerate env st0 = (c, st1) ->
        existsb hasImage (results st1) = false ->
        App.history (app st1) = App.history (app st0)
        /\ storedHistory (App.localStorage (app st1))
           = storedHistory (App.localStorage (app st0))).
Proof.
  destruct (record_facts sessionId r fr st) as (Hf & Hr & _ & _ & Ht & Hs).
  cbn zeta in *. repeat (split; [assumption|]).
  split; [|exact handleGenerate_no_image].
  destruct ((hasImage r || truthy (error r)) && existsb hasImage (fr ++ [r]));
    [|exact Hs].
  split; [exact Hs|].
  replace (App.localStorage (app (snd (record env sessionId r fr st))))
    with (snd (updateHistory (localeNow env (world st)) sessionId (fr ++ [r])
                 (App.localStorage (app st)))) by now rewrite <- Hs.
  rewrite HistoryFacts.loadHistory_updateHistory.
  apply HistoryFacts.sessionResults_updateHistory.
Qed.

(** C4. When the call of an attempt fails with a prompt rejection, the
    [while] loop ends there, whatever budget is left: the only request is
    the one that failed, the result of the prompt has no image and
    carries the message of the failure, and the [App] state, the pool of
    keys in it, is what it was before the attempt. *)
Theorem prompt_rejection_ends_retry (apiKeys0 : list ApiKey) (i total : nat)
    (prompt0 : string) (b : nat) (v : Attempt) (st st2 : St) (apiKey : ApiKey)
    (e : JsValue) :
  stopRequest st = false ->
  selectedKey apiKeys0 (keyIdx v) = Some apiKey ->
  awaitGenerateImages env prompt0 (key apiKey) (numImages st)
    (setStatusMessage (statusTrying i total apiKey) st) = (inr e, st2) ->
  isPromptError e = Some true ->
  exists v',
    whileLoop env apiKeys0 i total prompt0 (S b) v st = (Returned, v', st2)
    /\ promptResult v' = Some (mkResult prompt0 [] (getErrorMessage e))
    /\ attempts v' = attempts v
    /\ app st2 = app st
    /\ trace st2 = EvCall prompt0 (key apiKey) (numImages st) :: trace st.
Proof.
  intros Hs Hsel Hcall Hp.
  destruct (whileLoop_rejection apiKeys0 i total prompt0 b v st st2 apiKey e
              Hs Hsel Hcall Hp) as (E & Happ & Htr).
  eexists. split; [exact E|]. cbn. auto.
Qed.

Lemma degraded_in_pool (apiKeys0 : list ApiKey) (apiKey : ApiKey) :
  In apiKey apiKeys0 ->
  let pool := map (fun k => if String.eqb (key k) (key apiKey)
                            then App.withStatus k RateLimited else k) apiKeys0 in
  In (App.withStatus apiKey RateLimited) pool
  /\ (forall k, In k pool -> key k = key apiKey -> status k = RateLimited).
Proof.
  intros Hin pool. split.
  - apply in_map_iff. exists apiKey. now rewrite String.eqb_refl.
  - intros k Hk Hkey. apply in_map_iff in Hk as (k0 & <- & _).
    destruct (String.eqb_spec (key k0) (key apiKey)) as [_|Hne]; [reflexivity|].
    contradiction.
Qed.

(** C5. When the call of an attempt fails and the failure is not a prompt
    rejection, the key used is marked Rate Limited in the pool, and the
    loop goes on with [attempts] and [keyIdx] one higher.  For a rate
    limit the 2000 ms timer is awaited first, unless Stop is set by then;
    for any other failure no timer is awaited. *)
Theorem key_failure_degrades_and_rotates (apiKeys0 : list ApiKey) (i total : nat)
    (prompt0 : string) (b : nat) (v : Attempt) (st st2 : St) (apiKey : ApiKey)
    (e : JsValue) (rateLimit : bool) :
  stopRequest st = false ->
  selectedKey apiKeys0 (keyIdx v) = Some apiKey ->
  awaitGenerateImages env prompt0 (key apiKey) (numImages st)
    (setStatusMessage (statusTrying i total apiKey) st) = (inr e, st2) ->
  isPromptError e = Some false ->
  isRateLimitError e = Some rateLimit ->
  exists st5 : St,
    whileLoop env apiKeys0 i total prompt0 (S b) v st
    = whileLoop env apiKeys0 i total prompt0 b
        (mkAttempt (promptResult v) (success v) (attempts v + 1)
                   (keyIdx v mod List.length (filter isActive apiKeys0) + 1)) st5
    /\ In (App.withStatus apiKey RateLimited) (App.apiKeys (app st5))
    /\ (forall k, In k (App.apiKeys (app st5)) -> key k = key apiKey ->
                  status k = RateLimited)
    /\ trace st5
       = ((if rateLimit && negb (stopRequest st2) then [EvWait 2000] else [])
            ++ EvCall prompt0 (key apiKey) (numImages st) :: trace st)%list.
Proof.
  intros Hs Hsel Hcall Hp Hr.
  destruct (whileLoop_key_failure apiKeys0 i total prompt0 b v st st2 apiKey e rateLimit
              Hs Hsel Hcall Hp Hr) as (st5 & E & Hpool & Htr & _).
  destruct (selectedKey_some _ _ _ Hsel) as (_ & Hin & _).
  destruct (degraded_in_pool apiKeys0 apiKey Hin) as (H1 & H2).
  exists st5. rewrite Hpool. auto.
Qed.

(** C9. A failure whose message, in lower case, contains 'prompt' or
    'safety' is a prompt rejection for the loop, whatever else the
    failure carries and whatever [isRateLimitError] says of it: the loop
    ends for the prompt with that message and the pool is left as it
    was, the key used still Active in it. *)
Theorem prompt_rejection_takes_precedence (apiKeys0 : list ApiKey) (i total : nat)
    (prompt0 : string) (b : nat) (v : Attempt) (st st2 : St) (apiKey : ApiKey)
    (e : JsValue) (m : string) :
  getErrorMessage e = JStr m ->
  (includes "prompt" (toLowerCase m) || includes "safety" (toLowerCase m)) = true ->
  stopRequest st = false ->
  selectedKey apiKeys0 (keyIdx v) = Some apiKey ->
  awaitGenerateImages env prompt0 (key apiKey) (numImages st)
    (setStatusMessage (statusTrying i total apiKey) st) = (inr e, st2) ->
  isPromptError e = Some true
  /\ whileLoop env apiKeys0 i total prompt0 (S b) v st
     = (Returned,
        mkAttempt (Some (mkResult prompt0 [] (JStr m))) (success v) (attempts v)
                  (keyIdx v mod List.length (filter isActive apiKeys0)),
        st2)
  /\ App.apiKeys (app st2) = App.apiKeys (app st)
  /\ isActive apiKey = true.
Proof.
  intros Hm Hword Hs Hsel Hcall.
  assert (Hp : isPromptError e = Some true)
    by (rewrite (isPromptError_textual e m Hm), Hword; reflexivity).
  destruct (whileLoop_rejection apiKeys0 i total prompt0 b v st st2 apiKey e
              Hs Hsel Hcall Hp) as (E & Happ & _).
  destruct (selectedKey_some _ _ _ Hsel) as (_ & _ & Hact).
  rewrite Hm in E. rewrite Happ. auto.
Qed.

(** C6 (as the code has it). Stop is looked at
    - before a prompt is started: if it is set the [for] loop ends, with
      the status 'Generation stopped by user.' and the results it had;
    - before an attempt: if it is set the [while] loop ends;
    - after a rate limit, before the timer is started: the 2000 ms are
      awaited exactly when Stop is not set by then, and the wait is not
      cut short by a later click;
    - after the [while] loop: if Stop is set by then the [for] loop ends
      and records nothing for the prompt in hand.
    And whatever happens, the results the loop had stay where they are:
    the loop only appends. *)
Theorem cancellation_checkpoints (apiKeys0 : list ApiKey) (sid : string)
    (total i : nat) (prompt0 : string) (rest : list string)
    (fr : list GenerationResult) (k : nat) (st : St) :
  (stopRequest st = true ->
   forLoop env apiKeys0 sid total i (prompt0 :: rest) fr k st
   = (Returned, fr, k, setStatusMessage "Generation stopped by user." st))
  /\ (forall b v,
        stopRequest st = true ->
        whileLoop env apiKeys0 i total prompt0 b v st = (Returned, v, st))
  /\ (forall b v st2 apiKey e,
        stopRequest st = false ->
        selectedKey apiKeys0 (keyIdx v) = Some apiKey ->
        awaitGenerateImages env prompt0 (key apiKey) (numImages st)
          (setStatusMessage (statusTrying i total apiKey) st) = (inr e, st2) ->
        isPromptError e = Some false ->
        isRateLimitError e = Some true ->
        exists st5 : St,
          whileLoop env apiKeys0 i total prompt0 (S b) v st
          = whileLoop env apiKeys0 i total prompt0 b
              (mkAttempt (promptResult v) (success v) (attempts v + 1)
                 (keyIdx v mod List.length (filter isActive apiKeys0) + 1)) st5
          /\ trace st5
             = ((if stopRequest st2 then [] else [EvWait 2000]) ++ trace st2)%list)
  /\ (forall c v st2,
        stopRequest st = false ->
        whileLoop env apiKeys0 i total prompt0 (List.length (filter isActive apiKeys0))
          (mkAttempt None false 0 k)
          (setStatusMessage (statusProcessing i total prompt0) st) = (c, v, st2) ->
        stopRequest st2 = true ->
        forLoop env apiKeys0 sid total i (prompt0 :: rest) fr k st
        = (c, fr, keyIdx v, st2))
  /\ (forall c fr' k' st',
        forLoop env apiKeys0 sid total i (prompt0 :: rest) fr k st = (c, fr', k', st') ->
        exists new,
          fr' = (fr ++ new)%list /\ results st' = (results st ++ new)%list).
Proof.
  split; [apply forLoop_stopped|].
  split; [intros b v; apply whileLoop_stopped|].
  split; [|split].
  - intros b v st2 apiKey e Hs Hsel Hcall Hp Hr.
    destruct (whileLoop_key_failure apiKeys0 i total prompt0 b v st st2 apiKey e true
                Hs Hsel Hcall Hp Hr) as (st5 & E & _ & Htr & _).
    destruct (awaitGenerateImages_frame _ _ _ _ _ _ Hcall) as (_ & Htr2 & _).
    exists st5. split; [exact E|]. rewrite Htr, Htr2. cbn [andb setStatusMessage trace].
    now destruct (stopRequest st2).
  - intros c v st2 Hs Hw Hs2. cbn [forLoop]. rewrite Hs, Hw.
    destruct c; [now rewrite Hs2 | reflexivity].
  - intros c fr' k' st' H.
    destruct (forLoop_journal _ _ _ _ _ _ _ _ _ _ _ _ H) as (new & H1 & H2 & _).
    eauto.
Qed.

End Loop.
End LoopFacts.

(** ** Runs on scripted environments *)

Module Scenarios.
Import JsString Js Types ApiService GeneratorPage Notions Scripted.

(** C2, on the code. One key, two prompts; the call for the first prompt
    is rate limited, which marks the only key Rate Limited.  The pool then
    has no Active key ([afterA]), yet the run calls the gateway for the
    second prompt with that key, and the prompt resolves to the images the
    call returned: the loop filters the [apiKeys] of the render it was
    started from, in which the key is still Active. *)
Theorem degraded_pool_is_still_called :
  let start := ready [keyA] (lines ["A"; "B"]) 1
                 (mkScript [failed rateLimited; ok ["img"]] []) in
  let afterA := snd (forLoop env [keyA] "s" 2 0 ["A"] [] 0 start) in
  filter isActive (App.apiKeys (app afterA)) = []
  /\ exists st',
       handleGenerate env start = (Returned, st')
       /\ App.apiKeys (app st') = [mkApiKey "AAAAAAAAAA1" RateLimited Gemini]
       /\ results st'
          = [mkResult "A" [] (JStr "All active API keys failed or are rate limited.");
             mkResult "B" ["img"] JUndefined]
       /\ filter (fun ev => match ev with EvCall _ _ _ => true | _ => false end)
            (trace st')
          = [EvCall "B" "AAAAAAAAAA1" 1; EvCall "A" "AAAAAAAAAA1" 1].
Proof.
  split; [vm_compute; reflexivity|].
  eexists. split; [vm_compute; reflexivity|].
  repeat split; reflexivity.
Qed.

(** C3, against the specification as written. A run whose only outcome carries an
    error and no image: the outcome is in the result sequence and was sent
    to [App], and nothing was stored, where an upsert would have stored
    the session. *)
Lemma error_only_run_not_persisted :
  let start := ready [keyA] "bad prompt" 1 (mkScript [failed blocked] []) in
  let r := mkResult "bad prompt" [] (JStr "The prompt was blocked.") in
  exists st',
    handleGenerate env start = (Returned, st')
    /\ results st' = [r]
    /\ truthy (error r) = true
    /\ In (EvUpdate "2025-01-01T00:00:00.000Z" [r]) (trace st')
    /\ storedHistory (App.localStorage (app st')) = None
    /\ App.history (app st') = []
    /\ storedHistory (snd (updateHistory "1/1/2025, 12:00:00 AM"
                             "2025-01-01T00:00:00.000Z" [r] (App.localStorage (app start))))
       <> storedHistory (App.localStorage (app st')).
Proof.
  eexists. split; [vm_compute; reflexivity|].
  repeat split; try reflexivity.
  - left. reflexivity.
  - discriminate.
Qed.

(** C6, against the specification as written. Stop is pressed while the cool-down
    timer runs (the timer reports the click): the timer was awaited to
    its end all the same, and Stop only takes effect after it. *)
Lemma stop_during_cool_down_waits_in_full :
  let w := mkScript [failed rateLimited; ok ["img"]] [true] in
  let start := ready [keyA; keyB] (lines ["A"; "B"]) 1 w in
  fst (sleep env 2000 (mkScript [ok ["img"]] [true])) = true
  /\ exists st',
       handleGenerate env start = (Returned, st')
       /\ trace st' = [EvWait 2000; EvCall "A" "AAAAAAAAAA1" 1]
       /\ stopRequest st' = true
       /\ results st' = [].
Proof.
  split; [reflexivity|].
  eexists. split; [vm_compute; reflexivity|].
  repeat split; reflexivity.
Qed.

(** *** The theorems at concrete inputs *)


(** The only key, and a prompt that the provider blocks. *)
Lemma prompt_rejection_ends_retry_witness :
  let st := ready [keyA] "bad prompt" 1 (mkScript [failed blocked] []) in
  let st2 := snd (awaitGenerateImages env "bad prompt" (key keyA) 1
                    (setStatusMessage (statusTrying 0 1 keyA) st)) in
  stopRequest st = false
  /\ selectedKey [keyA] (keyIdx fresh) = Some keyA
  /\ isPromptError blocked = Some true
  /\ exists v',
       whileLoop env [keyA] 0 1 "bad prompt" 1 fresh st = (Returned, v', st2)
       /\ promptResult v' = Some (mkResult "bad prompt" [] (getErrorMessage blocked))
       /\ attempts v' = attempts fresh
       /\ app st2 = app st
       /\ trace st2 = EvCall "bad prompt" (key keyA) (numImages st) :: trace st.
Proof.
  intros st st2.
  assert (H1 : stopRequest st = false) by reflexivity.
  assert (H2 : selectedKey [keyA] (keyIdx fresh) = Some keyA) by reflexivity.
  assert (H3 : awaitGenerateImages env "bad prompt" (key keyA) (numImages st)
                 (setStatusMessage (statusTrying 0 1 keyA) st) = (inr blocked, st2))
    by reflexivity.
  assert (H4 : isPromptError blocked = Some true) by reflexivity.
  exact (conj H1 (conj H2 (conj H4
           (LoopFacts.prompt_rejection_ends_retry Script env [keyA] 0 1 "bad prompt" 0
              fresh st st2 keyA blocked H1 H2 H3 H4)))).
Defined.

(** Two keys; the call with the first is rate limited. *)
Lemma key_failure_degrades_and_rotates_witness :
  let st := ready [keyA; keyB] "B" 1 (mkScript [failed rateLimited; ok ["img"]] []) in
  let st2 := snd (awaitGenerateImages env "B" (key keyA) 1
                    (setStatusMessage (statusTrying 0 1 keyA) st)) in
  stopRequest st = false
  /\ selectedKey [keyA; keyB] (keyIdx fresh) = Some keyA
  /\ isPromptError rateLimited = Some false
  /\ isRateLimitError rateLimited = Some true
  /\ exists st5 : PageState Script,
       whileLoop env [keyA; keyB] 0 1 "B" 2 fresh st
       = whileLoop env [keyA; keyB] 0 1 "B" 1
           (mkAttempt None false (0 + 1) (0 mod 2 + 1)) st5
       /\ In (App.withStatus keyA RateLimited) (App.apiKeys (app st5))
       /\ (forall k, In k (App.apiKeys (app st5)) -> key k = key keyA ->
                     status k = RateLimited)
       /\ trace st5
          = ((if true && negb (stopRequest st2) then [EvWait 2000] else [])
               ++ EvCall "B" (key keyA) (numImages st) :: trace st)%list.
Proof.
  intros st st2.
  assert (H1 : stopRequest st = false) by reflexivity.
  assert (H2 : selectedKey [keyA; keyB] (keyIdx fresh) = Some keyA) by reflexivity.
  assert (H3 : awaitGenerateImages env "B" (key keyA) (numImages st)
                 (setStatusMessage (statusTrying 0 1 keyA) st) = (inr rateLimited, st2))
    by reflexivity.
  assert (H4 : isPromptError rateLimited = Some false) by reflexivity.
  assert (H5 : isRateLimitError rateLimited = Some true) by reflexivity.
  exact (conj H1 (conj H2 (conj H4 (conj H5
           (LoopFacts.key_failure_degrades_and_rotates Script env [keyA; keyB] 0 1 "B" 1
              fresh st st2 keyA rateLimited true H1 H2 H3 H4 H5))))).
Defined.

(** A safety refusal that comes with the code 429 and the status
    [RESOURCE_EXHAUSTED]: a rate limit for [isRateLimitError], and a
    prompt rejection for the loop. *)
Lemma prompt_rejection_takes_precedence_witness :
  let st := ready [keyA; keyB] "A" 1 (mkScript [failed blockedAndLimited] []) in
  let st2 := snd (awaitGenerateImages env "A" (key keyA) 1
                    (setStatusMessage (statusTrying 0 1 keyA) st)) in
  isRateLimitError blockedAndLimited = Some true
  /\ getErrorMessage blockedAndLimited = JStr "Rejected by our safety system."
  /\ isPromptError blockedAndLimited = Some true
  /\ whileLoop env [keyA; keyB] 0 1 "A" 2 fresh st
     = (Returned,
        mkAttempt (Some (mkResult "A" [] (JStr "Rejected by our safety system.")))
                  false 0 (0 mod 2),
        st2)
  /\ App.apiKeys (app st2) = App.apiKeys (app st)
  /\ isActive keyA = true.
Proof.
  intros st st2.
  assert (H0 : isRateLimitError blockedAndLimited = Some true) by reflexivity.
  assert (H1 : getErrorMessage blockedAndLimited = JStr "Rejected by our safety system.")
    by reflexivity.
  assert (H2 : (includes "prompt" (toLowerCase "Rejected by our safety system.")
                || includes "safety" (toLowerCase "Rejected by our safety system.")) = true)
    by reflexivity.
  assert (H3 : stopRequest st = false) by reflexivity.
  assert (H4 : selectedKey [keyA; keyB] (keyIdx fresh) = Some keyA) by reflexivity.
  assert (H5 : awaitGenerateImages env "A" (key keyA) (numImages st)
                 (setStatusMessage (statusTrying 0 1 keyA) st)
               = (inr blockedAndLimited, st2)) by reflexivity.
  exact (conj H0 (conj H1
           (LoopFacts.prompt_rejection_takes_precedence Script env [keyA; keyB] 0 1 "A" 1
              fresh st st2 keyA blockedAndLimited "Rejected by our safety system."
              H1 H2 H3 H4 H5))).
Defined.

(** Stop is pressed while the first call is pending, and the call then
    fails with a rate limit: no timer is awaited, and the [for] loop ends
    without a result for the prompt. *)
Lemma cancellation_checkpoints_witness :
  let st := ready [keyA; keyB] (lines ["A"; "B"]) 1
              (mkScript [mkReply (inr rateLimited) true; ok ["img"]] []) in
  let st2 := snd (awaitGenerateImages env "A" (key keyA) 1
                    (setStatusMessage (statusTrying 0 2 keyA)
                       (setStatusMessage (statusProcessing 0 2 "A") st))) in
  let out := whileLoop env [keyA; keyB] 0 2 "A" 2 fresh
               (setStatusMessage (statusProcessing 0 2 "A") st) in
  stopRequest st = false
  /\ stopRequest st2 = true
  /\ stopRequest (snd out) = true
  /\ trace (snd out) = [EvCall "A" "AAAAAAAAAA1" 1]
  /\ forLoop env [keyA; keyB] "s" 2 0 ["A"; "B"] [] 0 st
     = (fst (fst out), [], keyIdx (snd (fst out)), snd out).
Proof.
  intros st st2 out.
  assert (H1 : stopRequest st = false) by reflexivity.
  assert (H2 : stopRequest st2 = true) by reflexivity.
  assert (H3 : stopRequest (snd out) = true) by reflexivity.
  assert (H4 : trace (snd out) = [EvCall "A" "AAAAAAAAAA1" 1]) by reflexivity.
  assert (H5 : whileLoop env [keyA; keyB] 0 2 "A"
                 (List.length (filter isActive [keyA; keyB])) (mkAttempt None false 0 0)
                 (setStatusMessage (statusProcessing 0 2 "A") st)
               = (fst (fst out), snd (fst out), snd out)) by reflexivity.
  exact (conj H1 (conj H2 (conj H3 (conj H4
           (proj1 (proj2 (proj2 (proj2
              (LoopFacts.cancellation_checkpoints Script env [keyA; keyB] "s" 2 0 "A" ["B"]
                 [] 0 st))))
              (fst (fst out)) (snd (fst out)) (snd out) H1 H5 H3))))).
Defined.

(** A history of two sessions: an upsert of the older one keeps it second,
    an upsert of a new one goes to the head. *)
Lemma updateHistory_position_witness :
  let s1 := mkHistoryItem "s1" "d1" [] in
  let s2 := mkHistoryItem "s2" "d2" [] in
  let ls := mkStorage (Some [s2; s1]) None in
  let r := mkResult "A" ["img"] JUndefined in
  fst (updateHistory "now" "s1" [r] ls) = [s2; mkHistoryItem "s1" "d1" [r]]
  /\ fst (updateHistory "now" "s3" [r] ls) = [mkHistoryItem "s3" "now" [r]; s2; s1].
Proof.
  intros s1 s2 ls r. split.
  - refine (proj2 (proj2 (HistoryFacts.updateHistory_position "now" "s1" [r] ls))
              [s2] s1 [] eq_refl eq_refl _).
    intros x [<-|[]]. discriminate.
  - refine (proj1 (proj2 (HistoryFacts.updateHistory_position "now" "s3" [r] ls)) _).
    intros item [<-|[<-|[]]]; discriminate.
Defined.

(** A run with one blocked prompt: its outcome carries an error and no
    image, and the history is left empty. *)
Lemma record_flush_rule_witness :
  let st0 := ready [keyA] "bad prompt" 1 (mkScript [failed blocked] []) in
  let st1 := snd (handleGenerate env st0) in
  handleGenerate env st0 = (Returned, st1)
  /\ existsb hasImage (results st1) = false
  /\ App.history (app st1) = App.history (app st0)
  /\ storedHistory (App.localStorage (app st1))
     = storedHistory (App.localStorage (app st0)).
Proof.
  intros st0 st1.
  assert (H1 : handleGenerate env st0 = (Returned, st1)) by (vm_compute; reflexivity).
  assert (H2 : existsb hasImage (results st1) = false) by (vm_compute; reflexivity).
  exact (conj H1 (conj H2
           (proj2 (proj2 (proj2 (proj2
              (LoopFacts.record_flush_rule Script env "s"
                 (mkResult "bad prompt" [] (JStr "The prompt was blocked.")) [] st0))))
              st0 Returned st1 H1 H2))).
Defined.

End Scenarios.

(** ** Further properties: failure messages and classification *)

Module MessageFacts.
Import JsString Js Types ApiService Notions.

Lemma numberToString_nonempty (n : Z) : numberToString n <> EmptyString.
Proof.
  unfold numberToString. destruct (Z.to_int n) as [d|d]; cbn.
  - destruct d; cbn; discriminate.
  - discriminate.
Qed.

Lemma stringify_truthy (v : JsValue) (s : string) :
  stringify v = Some s -> isEmpty s = false.
Proof.
  destruct v as [| |b|n|t|items|fields|m]; cbn [stringify]; intros H;
    try discriminate; try (injection H as <-; reflexivity).
  - destruct b; injection H as <-; reflexivity.
  - injection H as <-. pose proof (numberToString_nonempty n).
    destruct (numberToString n); [contradiction | reflexivity].
Qed.

Lemma stringify_defined (v : JsValue) :
  truthy v = true -> exists s, stringify v = Some s.
Proof.
  destruct v as [| |b|n|t|items|fields|m]; cbn [stringify truthy]; intros H;
    try discriminate; eauto.
  destruct b; eauto.
Qed.

(** The message extracted from a failure is never blank: whatever was
    thrown, [getErrorMessage] gives a truthy value, so the error line of
    an outcome built from it is shown and the outcome is reported. *)
Theorem getErrorMessage_truthy (e : JsValue) : truthy (getErrorMessage e) = true.
Proof.
  unfold getErrorMessage.
  destruct (truthy e) eqn:Ht; cbn [negb]; [|reflexivity].
  destruct (typeofObject _ && negb (isArray _) && truthy (getProp _ "message")) eqn:C.
  - apply andb_true_iff in C as [_ C]. exact C.
  - destruct (stringify_defined e Ht) as [s S].
    destruct e; try discriminate Ht; try exact Ht; rewrite S;
      (destruct (negb (String.eqb s "{}")); [|reflexivity]);
      cbn [truthy]; now rewrite (stringify_truthy _ _ S).
Qed.

Lemma strictEqStr_true (v : JsValue) (lit : string) :
  strictEqStr v lit = true -> v = JStr lit.
Proof.
  destruct v; cbn; try discriminate. intros H. apply String.eqb_eq in H. now subst.
Qed.

Lemma strictEqNum_true (v : JsValue) (lit : Z) :
  strictEqNum v lit = true -> v = JNum lit.
Proof.
  destruct v; cbn; try discriminate. intros H. apply Z.eqb_eq in H. now subst.
Qed.

(** [isRateLimitError] says yes exactly for a truthy failure that has
    the status [RESOURCE_EXHAUSTED], the code [429] or
    ['rate_limit_exceeded'], or a textual message with 'quota', 'rate
    limit' or 'resource exhausted' in it (in any case of the letters). *)
Theorem isRateLimitError_iff (e : JsValue) :
  isRateLimitError e = Some true
  <-> truthy e = true
      /\ (let details := orElse (getProp e "error") e in
          getProp details "status" = JStr "RESOURCE_EXHAUSTED"
          \/ getProp details "code" = JNum 429
          \/ getProp details "code" = JStr "rate_limit_exceeded"
          \/ exists m, getErrorMessage e = JStr m
                       /\ (includes "quota" (toLowerCase m)
                           || includes "rate limit" (toLowerCase m)
                           || includes "resource exhausted" (toLowerCase m)) = true).
Proof.
  split.
  - unfold isRateLimitError. destruct (truthy e) eqn:Ht; cbn [negb]; [|discriminate].
    intros H. split; [reflexivity|]. cbn zeta.
    set (details := orElse (getProp e "error") e) in *.
    destruct (strictEqStr (getProp details "status") "RESOURCE_EXHAUSTED") eqn:A.
    { left. now apply strictEqStr_true. }
    destruct (strictEqNum (getProp details "code") 429) eqn:B.
    { right. left. now apply strictEqNum_true. }
    destruct (strictEqStr (getProp details "code") "rate_limit_exceeded") eqn:C.
    { right. right. left. now apply strictEqStr_true. }
    cbn [orb] in H. right. right. right.
    destruct (getErrorMessage e) as [| | | |m| | |]; cbn [callToLowerCase] in H;
      try discriminate. injection H as H. eauto.
  - intros [Ht H]. now apply ClassifierFacts.isRateLimitError_markers.
Qed.

End MessageFacts.

(** ** Further properties: the dispatcher with a usable key *)

Module DispatchFacts.
Import JsString Js Types ApiService Notions.

Section Dispatch.
Variable Net : Type.
Variable gemini : string -> string -> nat -> Net -> Settled * Net.
Variable openai : string -> string -> Net -> Settled * Net.

Lemma generateImages_relay (prompt apiKey : string) (numImages : nat)
    (g : Gateway Net) :
  (isEmpty apiKey || isEmpty (trim apiKey)) = false ->
  (let r := fst (gemini prompt apiKey numImages (net g)) in
   let out := generateImages Net gemini openai prompt apiKey numImages Gemini g in
   calls (snd out) = CallGemini prompt apiKey numImages :: calls g
   /\ net (snd out) = snd (gemini prompt apiKey numImages (net g))
   /\ (forall imgs, r = inl imgs -> fst out = inl imgs)
   /\ (forall e, r = inr e -> instanceofError e = false -> fst out = inr e)
   /\ (forall m, r = inr (JError m) ->
         fst out = inr (JError "Failed to call the Gemini API. Please check your network connection or console for details.")))
  /\ (let r := fst (openai prompt apiKey (net g)) in
      let out := generateImages Net gemini openai prompt apiKey numImages OpenAI g in
      calls (snd out) = CallOpenAI prompt apiKey :: calls g
      /\ net (snd out) = snd (openai prompt apiKey (net g))
      /\ (forall imgs, r = inl imgs -> fst out = inl imgs)
      /\ (forall e, r = inr e -> instanceofError e = false -> fst out = inr e)
      /\ (forall m, r = inr (JError m) ->
            fst out = inr (JError "Failed to call the OpenAI API. Please check your network connection or console for details."))).
Proof.
  intros Hkey. unfold generateImages. rewrite Hkey. split; cbn zeta.
  - destruct (gemini prompt apiKey numImages (net g)) as [r n]. cbn [fst snd].
    destruct r as [imgs|e].
    + cbn. repeat split; try discriminate. intros ? H. now injection H as <-.
    + destruct (instanceofError e && negb (hasErrorProp e)) eqn:C; cbn [fst snd calls net].
      * repeat split; try discriminate.
        intros e' H He. injection H as <-. now rewrite He in C.
      * repeat split; try discriminate.
        -- intros e' H _. now injection H as <-.
        -- intros m H. injection H as ->. discriminate C.
  - destruct (openai prompt apiKey (net g)) as [r n]. cbn [fst snd].
    destruct r as [imgs|e].
    + cbn. repeat split; try discriminate. intros ? H. now injection H as <-.
    + destruct (instanceofError e && negb (hasErrorProp e)) eqn:C; cbn [fst snd calls net].
      * repeat split; try discriminate.
        intros e' H He. injection H as <-. now rewrite He in C.
      * repeat split; try discriminate.
        -- intros e' H _. now injection H as <-.
        -- intros m H. injection H as ->. discriminate C.
Qed.

(** With a key that is not blank, [generateImages] sends exactly one
    request, to the provider of the service and with the prompt and key it
    was given.  Images come back as the provider gave them; a thrown
    value that is not an [Error] (the body of a refused request) comes
    back unchanged; an [Error], whatever its message, is replaced by
    'Failed to call the ... API. ...'. *)
Theorem generateImages_dispatch (prompt apiKey : string) (numImages : nat)
    (g : Gateway Net) :
  (isEmpty apiKey || isEmpty (trim apiKey)) = false ->
  (let r := fst (gemini prompt apiKey numImages (net g)) in
   let out := generateImages Net gemini openai prompt apiKey numImages Gemini g in
   calls (snd out) = CallGemini prompt apiKey numImages :: calls g
   /\ net (snd out) = snd (gemini prompt apiKey numImages (net g))
   /\ (forall imgs, r = inl imgs -> fst out = inl imgs)
   /\ (forall e, r = inr e -> instanceofError e = false -> fst out = inr e)
   /\ (forall m, r = inr (JError m) ->
         fst out = inr (JError "Failed to call the Gemini API. Please check your network connection or console for details.")))
  /\ (let r := fst (openai prompt apiKey (net g)) in
      let out := generateImages Net gemini openai prompt apiKey numImages OpenAI g in
      calls (snd out) = CallOpenAI prompt apiKey :: calls g
      /\ net (snd out) = snd (openai prompt apiKey (net g))
      /\ (forall imgs, r = inl imgs -> fst out = inl imgs)
      /\ (forall e, r = inr e -> instanceofError e = false -> fst out = inr e)
      /\ (forall m, r = inr (JError m) ->
            fst out = inr (JError "Failed to call the OpenAI API. Please check your network connection or console for details."))).
Proof. exact (generateImages_relay prompt apiKey numImages g). Qed.

(** An [Error] raised by a provider (no network, an answer that is not
    JSON, an answer of the wrong shape) reaches the loop as a failure that
    is neither a prompt rejection nor a rate limit, whatever the message
    of the [Error] was: the loop marks the key and moves on without
    cool-down. *)
Theorem provider_errors_are_other_failures (prompt apiKey : string) (numImages : nat)
    (service : AIService) (g : Gateway Net) (m : string) :
  (isEmpty apiKey || isEmpty (trim apiKey)) = false ->
  match service with
  | Gemini => fst (gemini prompt apiKey numImages (net g)) = inr (JError m)
  | OpenAI => fst (openai prompt apiKey (net g)) = inr (JError m)
  | OtherService _ => False
  end ->
  exists e,
    fst (generateImages Net gemini openai prompt apiKey numImages service g) = inr e
    /\ isPromptError e = Some false
    /\ isRateLimitError e = Some false.
Proof.
  intros Hkey Hr.
  destruct (generateImages_relay prompt apiKey numImages g Hkey) as [HG HO].
  cbn zeta in HG, HO.
  destruct service as [| |shown]; [| |contradiction].
  - destruct HG as (_ & _ & _ & _ & H). rewrite (H m Hr). eexists.
    split; [reflexivity|]. split; reflexivity.
  - destruct HO as (_ & _ & _ & _ & H). rewrite (H m Hr). eexists.
    split; [reflexivity|]. split; reflexivity.
Qed.

End Dispatch.

Lemma generateImages_dispatch_witness :
  let gem := fun (_ _ : string) (_ : nat) (n : nat) =>
               (inr (JError "Failed to fetch") : Settled, S n) in
  let oai := fun (_ _ : string) (n : nat) => (inl ["b64"] : Settled, S n) in
  (isEmpty "key-1" || isEmpty (trim "key-1")) = false
  /\ generateImages nat gem oai "a cat" "key-1" 2 Gemini (mkGateway 0 [])
     = (inr (JError "Failed to call the Gemini API. Please check your network connection or console for details."),
        mkGateway 1 [CallGemini "a cat" "key-1" 2])
  /\ generateImages nat gem oai "a cat" "key-1" 2 OpenAI (mkGateway 0 [])
     = (inl ["b64"], mkGateway 1 [CallOpenAI "a cat" "key-1"]).
Proof.
  intros gem oai.
  assert (Hkey : (isEmpty "key-1" || isEmpty (trim "key-1")) = false) by reflexivity.
  pose proof (generateImages_dispatch nat gem oai "a cat" "key-1" 2 (mkGateway 0 []) Hkey)
    as [(C1 & N1 & _ & _ & E1) (C2 & N2 & I2 & _)].
  split; [exact Hkey|]. split.
  - specialize (E1 "Failed to fetch" eq_refl). cbn zeta in *.
    destruct (generateImages nat gem oai "a cat" "key-1" 2 Gemini (mkGateway 0 []))
      as [r [n c]]. cbn in *. now subst.
  - specialize (I2 ["b64"] eq_refl). cbn zeta in *.
    destruct (generateImages nat gem oai "a cat" "key-1" 2 OpenAI (mkGateway 0 []))
      as [r [n c]]. cbn in *. now subst.
Defined.

Lemma provider_errors_are_other_failures_witness :
  let gem := fun (_ _ : string) (_ : nat) (n : nat) =>
               (inr (JError "quota exceeded, prompt blocked") : Settled, S n) in
  let oai := fun (_ _ : string) (n : nat) => (inl ["b64"] : Settled, S n) in
  (isEmpty "key-1" || isEmpty (trim "key-1")) = false
  /\ exists e,
       fst (generateImages nat gem oai "a cat" "key-1" 2 Gemini (mkGateway 0 [])) = inr e
       /\ isPromptError e = Some false
       /\ isRateLimitError e = Some false.
Proof.
  intros gem oai.
  assert (Hkey : (isEmpty "key-1" || isEmpty (trim "key-1")) = false) by reflexivity.
  exact (conj Hkey
           (provider_errors_are_other_failures nat gem oai "a cat" "key-1" 2 Gemini
              (mkGateway 0 []) "quota exceeded, prompt blocked" Hkey eq_refl)).
Defined.

End DispatchFacts.

(** ** Further properties: the stored history *)

Module StoreFacts.
Import JsString Js Types ApiService Notions.

Lemma otherSessions_setResultsAt (sid : string) (rs : list GenerationResult) :
  forall (h : list HistoryItem) (i : nat),
    findIndex (hasId sid) h = Some i ->
    otherSessions sid (setResultsAt i rs h) = otherSessions sid h.
Proof.
  unfold otherSessions.
  induction h as [|item rest IH]; intros i Hi; cbn in Hi; [discriminate|].
  destruct (hasId sid item) eqn:E.
  - injection Hi as <-. cbn. unfold hasId in E. now rewrite E.
  - destruct (findIndex (hasId sid) rest) as [j|] eqn:F; [|discriminate].
    injection Hi as <-. cbn. unfold hasId in E. rewrite E. cbn.
    now rewrite (IH j eq_refl).
Qed.

Lemma otherSessions_updateHistory (now sid : string) (rs : list GenerationResult)
    (ls : Storage) :
  otherSessions sid (fst (updateHistory now sid rs ls)) = otherSessions sid (loadHistory ls).
Proof.
  unfold updateHistory. cbn [fst]. fold (hasId sid).
  destruct (findIndex (hasId sid) (loadHistory ls)) as [i|] eqn:F.
  - now apply otherSessions_setResultsAt.
  - unfold otherSessions. cbn. now rewrite String.eqb_refl.
Qed.

Lemma otherSessions_absent (sid : string) (h : list HistoryItem) :
  (forall item, In item h -> id item <> sid) -> otherSessions sid h = h.
Proof.
  unfold otherSessions. induction h as [|item rest IH]; intros H; cbn; [reflexivity|].
  destruct (String.eqb_spec (id item) sid) as [E|_].
  - exfalso. apply (H item); [now left | exact E].
  - cbn. rewrite IH; [reflexivity|]. intros x Hx. apply H. now right.
Qed.

(** Deleting a session undoes an upsert of it: [deleteHistoryItem] after
    [updateHistory] for the same identifier gives the history and the
    storage that [deleteHistoryItem] alone gives; and when the history
    did not hold the identifier, it gives back the history as it was. *)
Theorem delete_after_update (now sid : string) (rs : list GenerationResult)
    (ls : Storage) :
  deleteHistoryItem sid (snd (updateHistory now sid rs ls)) = deleteHistoryItem sid ls
  /\ ((forall item, In item (loadHistory ls) -> id item <> sid) ->
      fst (deleteHistoryItem sid (snd (updateHistory now sid rs ls))) = loadHistory ls).
Proof.
  assert (E : deleteHistoryItem sid (snd (updateHistory now sid rs ls))
              = deleteHistoryItem sid ls).
  { unfold deleteHistoryItem. rewrite HistoryFacts.loadHistory_updateHistory.
    fold (otherSessions sid (fst (updateHistory now sid rs ls))).
    fold (otherSessions sid (loadHistory ls)).
    rewrite otherSessions_updateHistory. reflexivity. }
  split; [exact E|].
  intros Habs. rewrite E. unfold deleteHistoryItem. cbn [fst].
  now apply otherSessions_absent.
Qed.

Lemma sessionResults_otherSessions (sid sid' : string) (h : list HistoryItem) :
  sid' <> sid ->
  sessionResults sid' (otherSessions sid h) = sessionResults sid' h.
Proof.
  intros Hne. unfold sessionResults, otherSessions.
  induction h as [|item rest IH]; cbn; [reflexivity|].
  destruct (String.eqb_spec (id item) sid) as [E|E]; cbn.
  - unfold hasId at 2. rewrite E.
    destruct (String.eqb_spec sid sid') as [E'|_]; [now subst|]. exact IH.
  - destruct (hasId sid' item); [reflexivity | exact IH].
Qed.

Lemma sessionResults_deleted (sid : string) (h : list HistoryItem) :
  sessionResults sid (otherSessions sid h) = None.
Proof.
  unfold sessionResults, otherSessions.
  induction h as [|item rest IH]; cbn; [reflexivity|].
  destruct (String.eqb (id item) sid) eqn:E; cbn; [exact IH|].
  unfold hasId at 1. now rewrite E.
Qed.

(** Looking sessions up after [deleteHistoryItem]: the deleted identifier
    has no session any more, every other identifier has the outcomes it
    had, what is returned is what is stored, the stored keys are not
    touched, and deleting once more changes nothing. *)
Theorem deleteHistoryItem_lookup (id0 : string) (ls : Storage) :
  let h' := fst (deleteHistoryItem id0 ls) in
  let ls' := snd (deleteHistoryItem id0 ls) in
  sessionResults id0 h' = None
  /\ (forall sid, sid <> id0 -> sessionResults sid h' = sessionResults sid (loadHistory ls))
  /\ loadHistory ls' = h'
  /\ storedKeys ls' = storedKeys ls
  /\ deleteHistoryItem id0 ls' = deleteHistoryItem id0 ls.
Proof.
  cbn zeta. unfold deleteHistoryItem. cbn [fst snd].
  fold (otherSessions id0 (loadHistory ls)).
  split; [apply sessionResults_deleted|].
  split; [intros sid Hne; now apply sessionResults_otherSessions|].
  split; [reflexivity|]. split; [reflexivity|].
  cbn [loadHistory saveHistory storedHistory storedKeys].
  fold (otherSessions id0 (otherSessions id0 (loadHistory ls))).
  assert (E : otherSessions id0 (otherSessions id0 (loadHistory ls))
              = otherSessions id0 (loadHistory ls)).
  { apply otherSessions_absent. intros item Hin. unfold otherSessions in Hin.
    apply filter_In in Hin as [_ Hne].
    destruct (String.eqb_spec (id item) id0); [discriminate | assumption]. }
  now rewrite E.
Qed.

Lemma sessionResults_setResultsAt_other (sid sid' : string) (rs : list GenerationResult) :
  sid' <> sid ->
  forall (h : list HistoryItem) (i : nat),
    findIndex (hasId sid) h = Some i ->
    sessionResults sid' (setResultsAt i rs h) = sessionResults sid' h.
Proof.
  intros Hne. unfold sessionResults.
  induction h as [|item rest IH]; intros i Hi; cbn in Hi; [discriminate|].
  destruct (hasId sid item) eqn:E.
  - injection Hi as <-. cbn. unfold hasId in *. cbn [id].
    apply String.eqb_eq in E. rewrite E.
    destruct (String.eqb_spec sid sid') as [E'|_]; [now subst | reflexivity].
  - destruct (findIndex (hasId sid) rest) as [j|] eqn:F; [|discriminate].
    injection Hi as <-. cbn. destruct (hasId sid' item); [reflexivity|].
    now apply IH.
Qed.

(** Looking sessions up after [updateHistory]: the session upserted has
    the outcomes given, and every other identifier has the outcomes it
    had. *)
Theorem updateHistory_lookup (now sid : string) (rs : list GenerationResult)
    (ls : Storage) :
  let h' := fst (updateHistory now sid rs ls) in
  sessionResults sid h' = Some rs
  /\ (forall sid', sid' <> sid ->
        sessionResults sid' h' = sessionResults sid' (loadHistory ls)).
Proof.
  cbn zeta. split; [apply HistoryFacts.sessionResults_updateHistory|].
  intros sid' Hne. unfold updateHistory. cbn [fst]. fold (hasId sid).
  destruct (findIndex (hasId sid) (loadHistory ls)) as [i|] eqn:F.
  - now apply (sessionResults_setResultsAt_other sid).
  - unfold sessionResults. cbn. unfold hasId at 1. cbn [id].
    destruct (String.eqb_spec sid sid') as [E|_]; [now subst | reflexivity].
Qed.

(** The identifiers of the stored sessions stay distinct under each of
    the three operations that change the history. *)
Theorem history_ids_stay_distinct (now sid : string) (rs : list GenerationResult)
    (ls : Storage) :
  NoDup (map id (loadHistory ls)) ->
  NoDup (map id (loadHistory (snd (updateHistory now sid rs ls))))
  /\ NoDup (map id (loadHistory (snd (deleteHistoryItem sid ls))))
  /\ NoDup (map id (loadHistory (clearHistory ls))).
Proof.
  intros Hnd. split; [|split].
  - rewrite HistoryFacts.loadHistory_updateHistory.
    now apply HistoryFacts.updateHistory_ids_distinct.
  - unfold deleteHistoryItem. cbn [snd loadHistory saveHistory storedHistory].
    induction (loadHistory ls) as [|item rest IH]; cbn; [constructor|].
    inversion Hnd as [|x l Hnotin Hrest]; subst.
    destruct (negb (String.eqb (id item) sid)); [|now apply IH].
    cbn. constructor; [|now apply IH].
    intros Hin. apply Hnotin. apply in_map_iff in Hin as (y & Hy & Hiny).
    apply filter_In in Hiny as [Hiny _]. apply in_map_iff. eauto.
  - cbn. constructor.
Qed.

Lemma delete_after_update_witness :
  let ls := mkStorage (Some [mkHistoryItem "s1" "d1" []]) None in
  (forall item, In item (loadHistory ls) -> id item <> "s2")
  /\ fst (deleteHistoryItem "s2"
            (snd (updateHistory "now" "s2" [mkResult "A" ["img"] JUndefined] ls)))
     = loadHistory ls.
Proof.
  intros ls.
  assert (H : forall item, In item (loadHistory ls) -> id item <> "s2")
    by (intros item [<-|[]]; discriminate).
  exact (conj H
           (proj2 (delete_after_update "now" "s2" [mkResult "A" ["img"] JUndefined] ls) H)).
Defined.

Lemma deleteHistoryItem_lookup_witness :
  let ls := mkStorage (Some [mkHistoryItem "s2" "d2" [];
                             mkHistoryItem "s1" "d1" [mkResult "A" ["img"] JUndefined]])
                      None in
  "s1" <> "s2"
  /\ sessionResults "s1" (fst (deleteHistoryItem "s2" ls))
     = sessionResults "s1" (loadHistory ls).
Proof.
  intros ls.
  assert (H : "s1" <> "s2") by discriminate.
  exact (conj H (proj1 (proj2 (deleteHistoryItem_lookup "s2" ls)) "s1" H)).
Defined.

Lemma updateHistory_lookup_witness :
  let ls := mkStorage (Some [mkHistoryItem "s1" "d1" [mkResult "A" ["img"] JUndefined]])
                      None in
  "s1" <> "s2"
  /\ sessionResults "s1" (fst (updateHistory "now" "s2" [] ls))
     = sessionResults "s1" (loadHistory ls).
Proof.
  intros ls.
  assert (H : "s1" <> "s2") by discriminate.
  exact (conj H (proj2 (updateHistory_lookup "now" "s2" [] ls) "s1" H)).
Defined.

Lemma history_ids_stay_distinct_witness :
  let ls := mkStorage (Some [mkHistoryItem "s2" "d2" []; mkHistoryItem "s1" "d1" []])
                      None in
  NoDup (map id (loadHistory ls))
  /\ NoDup (map id (loadHistory (snd (updateHistory "now" "s3" [] ls))))
  /\ NoDup (map id (loadHistory (snd (deleteHistoryItem "s3" ls))))
  /\ NoDup (map id (loadHistory (clearHistory ls))).
Proof.
  intros ls.
  assert (H : NoDup (map id (loadHistory ls))).
  { cbn. repeat constructor; cbn; intuition discriminate. }
  exact (conj H (history_ids_stay_distinct "now" "s3" [] ls H)).
Defined.

End StoreFacts.

(** ** Further properties: the pool of keys *)

Module PoolFacts.
Import JsString Js Types ApiService Notions.

Lemma keys_withKeyStatus (k : string) (s : ApiKeyStatus) (l : list ApiKey) :
  map key (withKeyStatus k s l) = map key l
  /\ map service (withKeyStatus k s l) = map service l.
Proof.
  unfold withKeyStatus. induction l as [|x l [IH1 IH2]]; cbn; [auto|].
  rewrite IH1, IH2. destruct (String.eqb (key x) k); auto.
Qed.

Lemma updateApiKeyStatus_pool (l : list ApiKey) (k : string) (s : ApiKeyStatus)
    (a : App.AppState) :
  App.apiKeys (App.updateApiKeyStatus l k s a) = withKeyStatus k s l.
Proof. reflexivity. Qed.

(** [updateApiKeyStatus] changes statuses only: the keys, their order and
    their services are those of the list it was computed from, the
    entries with the key have the new status, the entries with another
    key are as they were, and doing it twice is doing it once. *)
Theorem updateApiKeyStatus_only_status (l : list ApiKey) (k : string)
    (s : ApiKeyStatus) (a : App.AppState) :
  let pool := App.apiKeys (App.updateApiKeyStatus l k s a) in
  map key pool = map key l
  /\ map service pool = map service l
  /\ (forall x, In x pool -> key x = k -> status x = s)
  /\ (forall x, key x <> k -> (In x pool <-> In x l))
  /\ App.updateApiKeyStatus pool k s (App.updateApiKeyStatus l k s a)
     = App.updateApiKeyStatus l k s a.
Proof.
  cbn zeta. rewrite updateApiKeyStatus_pool.
  destruct (keys_withKeyStatus k s l) as [K S].
  split; [exact K|]. split; [exact S|]. split; [|split].
  - intros x Hin Hk. apply in_map_iff in Hin as (y & <- & _).
    destruct (String.eqb_spec (key y) k) as [_|Hne]; [reflexivity|].
    cbn in Hk. contradiction.
  - intros x Hne. unfold withKeyStatus. rewrite in_map_iff. split.
    + intros (y & Hy & Hin). destruct (String.eqb_spec (key y) k) as [E|_].
      * subst x. cbn in Hne. contradiction.
      * now subst.
    + intros Hin. exists x. split; [|exact Hin].
      destruct (String.eqb_spec (key x) k); [contradiction | reflexivity].
  - unfold App.updateApiKeyStatus, App.updateApiKeys. cbn. f_equal.
    + fold (withKeyStatus k s l). fold (withKeyStatus k s (withKeyStatus k s l)).
      unfold withKeyStatus. rewrite map_map. apply map_ext. intros x.
      destruct (String.eqb (key x) k) eqn:E; cbn; now rewrite E.
    + f_equal. f_equal.
      unfold withKeyStatus. rewrite map_map. apply map_ext. intros x.
      destruct (String.eqb (key x) k) eqn:E; cbn; now rewrite E.
Qed.

Lemma existsb_key (l : list ApiKey) (k : string) :
  existsb (fun x => String.eqb (key x) k) l = true <-> In k (map key l).
Proof.
  rewrite existsb_exists, in_map_iff. split.
  - intros (x & Hin & E). apply String.eqb_eq in E. eauto.
  - intros (x & E & Hin). exists x. split; [exact Hin|]. now apply String.eqb_eq.
Qed.

Lemma filter_other_keys (l : list ApiKey) (k : string) :
  ~ In k (map key l) ->
  filter (fun x => negb (String.eqb (key x) k)) l = l.
Proof.
  induction l as [|x l IH]; cbn; intros H; [reflexivity|].
  destruct (String.eqb_spec (key x) k) as [E|_]; [exfalso; auto|].
  cbn. rewrite IH; [reflexivity | tauto].
Qed.

(** Adding a key and removing it.  A key the pool already has is not
    added again, and the entry it has keeps its status.  A key the pool
    does not have is appended as Active, after the others; removing it
    gives back the pool as it was, and after [removeApiKey] no entry has
    the key. *)
Theorem addApiKey_removeApiKey (l : list ApiKey) (k : string) (s : AIService)
    (a : App.AppState) :
  (In k (map key l) -> App.addApiKey l k s a = a)
  /\ (~ In k (map key l) ->
      App.apiKeys (App.addApiKey l k s a) = (l ++ [mkApiKey k Active s])%list
      /\ App.apiKeys (App.removeApiKey (App.apiKeys (App.addApiKey l k s a)) k
                        (App.addApiKey l k s a)) = l)
  /\ ~ In k (map key (App.apiKeys (App.removeApiKey l k a))).
Proof.
  split; [|split].
  - intros Hin. unfold App.addApiKey.
    now rewrite (proj2 (existsb_key l k) Hin).
  - intros Hnot. unfold App.addApiKey.
    destruct (existsb (fun x => String.eqb (key x) k) l) eqn:E.
    { exfalso. apply Hnot. now apply existsb_key. }
    cbn. split; [reflexivity|].
    rewrite filter_app. cbn. rewrite String.eqb_refl. cbn.
    rewrite app_nil_r. now apply filter_other_keys.
  - cbn. intros Hin. apply in_map_iff in Hin as (x & E & Hin).
    apply filter_In in Hin as [_ Hne]. rewrite E, String.eqb_refl in Hne. discriminate.
Qed.

Lemma handleResetStatus_active (l0 l : list ApiKey) (a : App.AppState) :
  forallb isActive l = true ->
  fold_left
    (fun acc k =>
       match status k with
       | RateLimited => App.updateApiKeyStatus l0 (key k) Active acc
       | Active => acc
       end) l a = a.
Proof.
  revert a. induction l as [|x l IH]; intros a H; cbn; [reflexivity|].
  cbn in H. apply andb_true_iff in H as [Hx Hl]. unfold isActive in Hx.
  destruct (status x); [|discriminate]. now apply IH.
Qed.

(** [handleResetStatus] with more than one Rate Limited key.  Every call
    of [updateApiKeyStatus] in its loop computes the new pool from the
    same rendered list, so the last call decides: the pool ends as the
    rendered list with the last Rate Limited key made Active.  Entries
    with another key, Rate Limited ones among them, are as they were.
    With no Rate Limited key nothing is written. *)
Theorem handleResetStatus_last_wins (pre post : list ApiKey) (k : ApiKey)
    (a : App.AppState) :
  (forallb isActive (pre ++ k :: post) = true ->
   GeneratorPage.handleResetStatus (pre ++ k :: post) a = a)
  /\ (status k = RateLimited ->
      forallb isActive post = true ->
      let a' := GeneratorPage.handleResetStatus (pre ++ k :: post) a in
      App.apiKeys a' = withKeyStatus (key k) Active (pre ++ k :: post)
      /\ storedKeys (App.localStorage a') = Some (App.apiKeys a')
      /\ (forall x, In x (pre ++ k :: post) -> key x <> key k -> In x (App.apiKeys a'))).
Proof.
  split.
  - intros H. now apply handleResetStatus_active.
  - intros Hk Hpost. cbn zeta. unfold GeneratorPage.handleResetStatus.
    rewrite fold_left_app. cbn [fold_left]. rewrite Hk.
    rewrite handleResetStatus_active by exact Hpost.
    rewrite updateApiKeyStatus_pool.
    split; [reflexivity|]. split; [reflexivity|].
    intros x Hin Hne. unfold withKeyStatus. apply in_map_iff. exists x.
    split; [|exact Hin].
    destruct (String.eqb_spec (key x) (key k)); [contradiction | reflexivity].
Qed.

Lemma handleResetStatus_pool (l0 l : list ApiKey) (a : App.AppState) :
  let a' := fold_left
              (fun acc k =>
                 match status k with
                 | RateLimited => App.updateApiKeyStatus l0 (key k) Active acc
                 | Active => acc
                 end) l a in
  (a' = a \/ exists k, App.apiKeys a' = withKeyStatus k Active l0
                        /\ storedKeys (App.localStorage a') = Some (App.apiKeys a'))
  /\ App.history a' = App.history a
  /\ storedHistory (App.localStorage a') = storedHistory (App.localStorage a).
Proof.
  cbn zeta. revert a. induction l as [|x l IH]; intros a; cbn [fold_left]; [auto|].
  destruct (status x).
  - apply IH.
  - destruct (IH (App.updateApiKeyStatus l0 (key x) Active a)) as ([E|E] & H1 & H2).
    + rewrite E. split; [|split; reflexivity]. right. exists (key x). split; reflexivity.
    + split; [now right|]. split; [exact H1 | exact H2].
Qed.

(** The keys of the pool stay distinct under each of the four handlers
    that write the pool, when they are closures of the current render. *)
Theorem pool_keys_stay_distinct (k : string) (s : AIService) (st0 : ApiKeyStatus)
    (a : App.AppState) :
  NoDup (map key (App.apiKeys a)) ->
  NoDup (map key (App.apiKeys (App.addApiKey (App.apiKeys a) k s a)))
  /\ NoDup (map key (App.apiKeys (App.removeApiKey (App.apiKeys a) k a)))
  /\ NoDup (map key (App.apiKeys (App.updateApiKeyStatus (App.apiKeys a) k st0 a)))
  /\ NoDup (map key (App.apiKeys (GeneratorPage.handleResetStatus (App.apiKeys a) a))).
Proof.
  intros Hnd. split; [|split; [|split]].
  - unfold App.addApiKey.
    destruct (existsb (fun x => String.eqb (key x) k) (App.apiKeys a)) eqn:E;
      cbn [negb]; [exact Hnd|].
    cbn. rewrite map_app. cbn. apply NoDup_app; [exact Hnd | repeat constructor; auto |].
    intros x Hx [<-|[]].
    apply existsb_key in Hx. congruence.
  - cbn. induction (App.apiKeys a) as [|x l IH]; cbn; [constructor|].
    inversion Hnd as [|y l' Hnotin Hrest]; subst.
    destruct (negb (String.eqb (key x) k)); [|now apply IH].
    cbn. constructor; [|now apply IH].
    intros Hin. apply Hnotin. apply in_map_iff in Hin as (y & Hy & Hiny).
    apply filter_In in Hiny as [Hiny _]. apply in_map_iff. eauto.
  - rewrite updateApiKeyStatus_pool.
    now rewrite (proj1 (keys_withKeyStatus k st0 (App.apiKeys a))).
  - unfold GeneratorPage.handleResetStatus.
    destruct (handleResetStatus_pool (App.apiKeys a) (App.apiKeys a) a)
      as ([E|(k' & E & _)] & _); cbn zeta in E; rewrite E; [exact Hnd|].
    now rewrite (proj1 (keys_withKeyStatus k' Active (App.apiKeys a))).
Qed.


Lemma addApiKey_removeApiKey_witness :
  let l := [mkApiKey "k1" RateLimited Gemini] in
  let a := App.mkApp l [] (mkStorage None (Some l)) in
  In "k1" (map key l)
  /\ ~ In "k2" (map key l)
  /\ App.addApiKey l "k1" Gemini a = a
  /\ App.apiKeys (App.addApiKey l "k2" OpenAI a) = [mkApiKey "k1" RateLimited Gemini;
                                                   mkApiKey "k2" Active OpenAI]
  /\ App.apiKeys (App.removeApiKey (App.apiKeys (App.addApiKey l "k2" OpenAI a)) "k2"
                    (App.addApiKey l "k2" OpenAI a)) = l.
Proof.
  intros l a.
  assert (H1 : In "k1" (map key l)) by (left; reflexivity).
  assert (H2 : ~ In "k2" (map key l)) by (intros [H|[]]; discriminate).
  exact (conj H1 (conj H2
           (conj (proj1 (addApiKey_removeApiKey l "k1" Gemini a) H1)
                 (proj1 (proj2 (addApiKey_removeApiKey l "k2" OpenAI a)) H2)))).
Defined.

(** Two Rate Limited keys: after the reset the first is still Rate
    Limited. *)
Lemma handleResetStatus_last_wins_witness :
  let k1 := mkApiKey "k1" RateLimited Gemini in
  let k2 := mkApiKey "k2" RateLimited Gemini in
  let a := App.mkApp [k1; k2] [] (mkStorage None (Some [k1; k2])) in
  status k2 = RateLimited
  /\ forallb isActive [] = true
  /\ App.apiKeys (GeneratorPage.handleResetStatus [k1; k2] a)
     = [k1; mkApiKey "k2" Active Gemini].
Proof.
  intros k1 k2 a.
  assert (H1 : status k2 = RateLimited) by reflexivity.
  assert (H2 : forallb isActive [] = true) by reflexivity.
  exact (conj H1 (conj H2
           (proj1 (proj2 (handleResetStatus_last_wins [k1] [] k2 a) H1 H2)))).
Defined.

Lemma pool_keys_stay_distinct_witness :
  let l := [mkApiKey "k1" RateLimited Gemini; mkApiKey "k2" Active OpenAI] in
  let a := App.mkApp l [] (mkStorage None (Some l)) in
  NoDup (map key (App.apiKeys a))
  /\ NoDup (map key (App.apiKeys (App.addApiKey (App.apiKeys a) "k3" Gemini a))).
Proof.
  intros l a.
  assert (H : NoDup (map key (App.apiKeys a))).
  { cbn. repeat constructor; cbn; intuition discriminate. }
  exact (conj H (proj1 (pool_keys_stay_distinct "k3" Gemini Active a H))).
Defined.


End PoolFacts.

(** ** Further properties: the providers' answers *)

Module ProviderFacts.
Import JsString Js Types ApiService Notions Providers.

Section Engine.
Variable typeErrorText : string -> string.

Lemma member_thrown (v : JsValue) (name : string) (t : JsValue) :
  member typeErrorText v name = inr t -> instanceofError t = true.
Proof. destruct v; cbn; intros H; try discriminate; now injection H as <-. Qed.

Lemma member_value (v : JsValue) (name : string) (x : JsValue) :
  member typeErrorText v name = inl x -> x = getProp v name.
Proof. destruct v; cbn; intros H; try discriminate; now injection H as <-. Qed.

Lemma mapImageBytes_value :
  forall (items : list JsValue) (imgs : list JsValue),
    mapImageBytes typeErrorText items = inl imgs ->
    imgs = map (fun img => getProp (getProp img "image") "imageBytes") items.
Proof.
  induction items as [|img rest IH]; intros imgs H; cbn in H.
  - now injection H as <-.
  - unfold imageBytesOf in H.
    destruct (member typeErrorText img "image") as [image|t] eqn:E1; [|discriminate].
    destruct (member typeErrorText image "imageBytes") as [b|t] eqn:E2; [|discriminate].
    destruct (mapImageBytes typeErrorText rest) as [more|t] eqn:E3; [|discriminate].
    injection H as <-. cbn. rewrite (IH more eq_refl).
    apply member_value in E1, E2. now subst.
Qed.

Lemma mapImageBytes_thrown :
  forall (items : list JsValue) (t : JsValue),
    mapImageBytes typeErrorText items = inr t -> instanceofError t = true.
Proof.
  induction items as [|img rest IH]; intros t H; cbn in H; [discriminate|].
  unfold imageBytesOf in H.
  destruct (member typeErrorText img "image") as [image|t1] eqn:E1.
  - destruct (member typeErrorText image "imageBytes") as [b|t2] eqn:E2.
    + destruct (mapImageBytes typeErrorText rest) as [more|t3] eqn:E3; [discriminate|].
      injection H as <-. now apply IH.
    + injection H as <-. eapply member_thrown; eassumption.
  - injection H as <-. eapply member_thrown; eassumption.
Qed.

(** When [generateImagesGemini] returns, the request was accepted, the
    body has an array under [generatedImages], and the result has one
    entry for each element of that array, in order: its
    [image.imageBytes]. *)
Theorem generateImagesGemini_returns (f : Fetched) (imgs : list JsValue) :
  generateImagesGemini typeErrorText f = inl imgs ->
  exists data items,
    f = Body true data
    /\ getProp data "generatedImages" = JArr items
    /\ imgs = map (fun img => getProp (getProp img "image") "imageBytes") items
    /\ List.length imgs = List.length items.
Proof.
  destruct f as [m|ok m|ok data]; cbn; try discriminate.
  destruct ok; cbn [negb]; [|discriminate].
  destruct (member typeErrorText data "generatedImages") as [gi|t] eqn:E; [|discriminate].
  destruct gi as [| | | | |items| |]; try discriminate.
  intros H. apply member_value in E. apply mapImageBytes_value in H.
  exists data, items. subst imgs. rewrite length_map. auto.
Qed.

(** When [generateImagesOpenAI] returns, it returns exactly one image,
    and that image is truthy: the [b64_json] of the first element of the
    array under [data]. *)
Theorem generateImagesOpenAI_returns (f : Fetched) (imgs : list JsValue) :
  generateImagesOpenAI typeErrorText f = inl imgs ->
  exists data items b64,
    f = Body true data
    /\ getProp data "data" = JArr items
    /\ b64 = getProp (first (JArr items)) "b64_json"
    /\ truthy b64 = true
    /\ imgs = [b64].
Proof.
  destruct f as [m|ok m|ok data]; cbn; try discriminate.
  destruct ok; cbn [negb]; [|discriminate].
  destruct (member typeErrorText data "data") as [d1|t] eqn:E; [|discriminate].
  destruct (negb (truthy d1) || negb (isArray d1)
            || negb (truthy (optMember (first d1) "b64_json"))) eqn:C; [discriminate|].
  apply orb_false_iff in C as [C C3]. apply orb_false_iff in C as [_ C2].
  apply negb_false_iff in C2, C3.
  destruct d1 as [| | | | |items| |]; try discriminate.
  destruct (member typeErrorText (first (JArr items)) "b64_json") as [b|t] eqn:E2;
    [|discriminate].
  intros H. injection H as <-. apply member_value in E, E2.
  exists data, items, b. repeat split; auto.
  subst b. destruct (first (JArr items)); cbn in C3; try discriminate; exact C3.
Qed.

(** What the two providers throw is either the body of a refused request,
    whatever it is, or an [Error]. *)
Theorem providers_throw_body_or_error (f : Fetched) (t : JsValue) :
  generateImagesGemini typeErrorText f = inr t
  \/ generateImagesOpenAI typeErrorText f = inr t ->
  (exists data, f = Body false data /\ t = data) \/ instanceofError t = true.
Proof.
  intros [H|H]; destruct f as [m|ok m|ok data]; cbn in H;
    try (injection H as <-; now right).
  - destruct ok; cbn [negb] in H; [|injection H as <-; left; eauto].
    right.
    destruct (member typeErrorText data "generatedImages") as [gi|t1] eqn:E.
    + destruct gi; try (injection H as <-; reflexivity).
      eapply mapImageBytes_thrown; eassumption.
    + injection H as <-. eapply member_thrown; eassumption.
  - destruct ok; cbn [negb] in H; [|injection H as <-; left; eauto].
    right.
    destruct (member typeErrorText data "data") as [d1|t1] eqn:E.
    + destruct (_ || _); [injection H as <-; reflexivity|].
      destruct (member typeErrorText (first d1) "b64_json") as [b|t2] eqn:E2;
        [discriminate|].
      injection H as <-. eapply member_thrown; eassumption.
    + injection H as <-. eapply member_thrown; eassumption.
Qed.

End Engine.

Lemma generateImagesGemini_returns_witness :
  let img := JObj [("image", JObj [("imageBytes", JStr "AAAA")])] in
  let f := Body true (JObj [("generatedImages", JArr [img; img])]) in
  generateImagesGemini noText f = inl [JStr "AAAA"; JStr "AAAA"]
  /\ exists data items,
       f = Body true data
       /\ getProp data "generatedImages" = JArr items
       /\ [JStr "AAAA"; JStr "AAAA"]
          = map (fun img => getProp (getProp img "image") "imageBytes") items
       /\ List.length [JStr "AAAA"; JStr "AAAA"] = List.length items.
Proof.
  intros img f.
  assert (H : generateImagesGemini noText f = inl [JStr "AAAA"; JStr "AAAA"])
    by reflexivity.
  exact (conj H (generateImagesGemini_returns noText f _ H)).
Defined.

Lemma generateImagesOpenAI_returns_witness :
  let f := Body true (JObj [("data", JArr [JObj [("b64_json", JStr "AAAA")];
                                           JObj [("b64_json", JStr "BBBB")]])]) in
  generateImagesOpenAI noText f = inl [JStr "AAAA"]
  /\ exists data items b64,
       f = Body true data
       /\ getProp data "data" = JArr items
       /\ b64 = getProp (first (JArr items)) "b64_json"
       /\ truthy b64 = true
       /\ [JStr "AAAA"] = [b64].
Proof.
  intros f.
  assert (H : generateImagesOpenAI noText f = inl [JStr "AAAA"]) by reflexivity.
  exact (conj H (generateImagesOpenAI_returns noText f _ H)).
Defined.

Lemma providers_throw_body_or_error_witness :
  let body := JObj [("error", JObj [("code", JNum 429)])] in
  generateImagesGemini noText (Body false body) = inr body
  /\ ((exists data, Body false body = Body false data /\ body = data)
      \/ instanceofError body = true).
Proof.
  intros body.
  assert (H : generateImagesGemini noText (Body false body) = inr body) by reflexivity.
  exact (conj H (providers_throw_body_or_error noText (Body false body) body (or_introl H))).
Defined.

End ProviderFacts.

(** ** Further properties: the generation loop *)

Module RunFacts.
Import JsString Js Types ApiService GeneratorPage Notions ClassifierFacts LoopFacts.

Section Steps.
Variable W : Type.
Variable env : Env W.

Local Abbreviation St := (PageState W).

(** The pass of the [while] loop, case by case of how the call settles. *)
Lemma whileLoop_pass (apiKeys0 : list ApiKey) (i total : nat) (prompt0 : string)
    (b : nat) (v : Attempt) (st st2 : St) (apiKey : ApiKey) (r : Settled) :
  stopRequest st = false ->
  selectedKey apiKeys0 (keyIdx v) = Some apiKey ->
  awaitGenerateImages env prompt0 (key apiKey) (numImages st)
    (setStatusMessage (statusTrying i total apiKey) st) = (r, st2) ->
  let idx := keyIdx v mod List.length (filter isActive apiKeys0) in
  whileLoop env apiKeys0 i total prompt0 (S b) v st
  = match r with
    | inl generated =>
        (Returned, mkAttempt (Some (mkResult prompt0 generated JUndefined)) true
                     (attempts v) idx,
         setCurrentKeyIndex idx st2)
    | inr e =>
        match isPromptError e with
        | None => (Uncaught, v, st2)
        | Some true =>
            (Returned, mkAttempt (Some (mkResult prompt0 [] (getErrorMessage e)))
                         (success v) (attempts v) idx, st2)
        | Some false =>
            match isRateLimitError e with
            | None => (Uncaught, v, st2)
            | Some rl =>
                whileLoop env apiKeys0 i total prompt0 b
                  (mkAttempt (promptResult v) (success v) (attempts v + 1) (idx + 1))
                  (afterFailure env apiKeys0 apiKey rl st2)
            end
        end
    end.
Proof.
  intros Hs Hsel Hcall idx.
  destruct (selectedKey_some _ _ _ Hsel) as (Hlen & _ & _).
  cbn [whileLoop]. rewrite Hs, Hlen.
  unfold selectedKey in Hsel. rewrite Hsel, Hcall.
  destruct r as [generated|e]; [reflexivity|].
  destruct (isPromptError e) as [[|]|]; try reflexivity.
  destruct (isRateLimitError e) as [[|]|]; reflexivity.
Qed.

(** A relation between the states of a run that holds across every step
    of the [while] loop holds across the loop. *)
Section Across.
Variable apiKeys0 : list ApiKey.
Variable sid : string.
Variable okPrompt : string -> Prop.
Variable R : St -> St -> Prop.
Hypothesis R_refl : forall st, R st st.
Hypothesis R_trans : forall a b c, R a b -> R b c -> R a c.
Hypothesis R_status : forall m st, attemptStatus m -> R st (setStatusMessage m st).
Hypothesis R_index : forall i st, R st (setCurrentKeyIndex i st).
Hypothesis R_call :
  forall p apiKey st,
    okPrompt p ->
    In apiKey (filter isActive apiKeys0) ->
    R st (snd (awaitGenerateImages env p (key apiKey) (numImages st) st)).
Hypothesis R_mark :
  forall apiKey st,
    In apiKey (filter isActive apiKeys0) ->
    R st (updateApiKeyStatus apiKeys0 (key apiKey) RateLimited st).
Hypothesis R_wait : forall st, R st (awaitTimeout env 2000 st).

Lemma afterFailure_across (apiKey : ApiKey) (rl : bool) (st : St) :
  In apiKey (filter isActive apiKeys0) -> R st (afterFailure env apiKeys0 apiKey rl st).
Proof.
  intros Hin. unfold afterFailure. cbn zeta.
  assert (H4 : R st (setStatusMessage
                       (if rl then statusCoolingDown apiKey else statusFailed apiKey)
                       (updateApiKeyStatus apiKeys0 (key apiKey) RateLimited st))).
  { eapply R_trans; [apply R_mark; exact Hin|]. apply R_status.
    destruct rl; constructor. }
  destruct (rl && negb _); [|exact H4].
  eapply R_trans; [exact H4 | apply R_wait].
Qed.

Lemma whileLoop_across (i total : nat) (prompt0 : string) :
  okPrompt prompt0 ->
  forall (b : nat) (v : Attempt) (st : St) (c : Completion) (v' : Attempt) (st' : St),
    whileLoop env apiKeys0 i total prompt0 b v st = (c, v', st') -> R st st'.
Proof.
  intros Hok. induction b as [|b IH]; intros v st c v' st' H.
  - cbn in H. injection H as <- <- <-. apply R_refl.
  - destruct (stopRequest st) eqn:Hs.
    { cbn [whileLoop] in H. rewrite Hs in H. injection H as <- <- <-. apply R_refl. }
    destruct (List.length (filter isActive apiKeys0) =? 0) eqn:Hl.
    { cbn [whileLoop] in H. rewrite Hs, Hl in H. injection H as <- <- <-. apply R_refl. }
    destruct (selectedKey_total apiKeys0 (keyIdx v) Hl) as [apiKey Hsel].
    assert (Hin : In apiKey (filter isActive apiKeys0))
      by (unfold selectedKey in Hsel; eapply nth_error_In; exact Hsel).
    destruct (awaitGenerateImages env prompt0 (key apiKey) (numImages st)
                (setStatusMessage (statusTrying i total apiKey) st))
      as [r st2] eqn:Hcall.
    assert (H2 : R st st2).
    { eapply R_trans; [apply (R_status (statusTrying i total apiKey)); constructor|].
      pose proof (R_call prompt0 apiKey
                    (setStatusMessage (statusTrying i total apiKey) st) Hok Hin) as Hc.
      cbn [numImages setStatusMessage] in Hc. rewrite Hcall in Hc. exact Hc. }
    rewrite (whileLoop_pass apiKeys0 i total prompt0 b v st st2 apiKey r Hs Hsel Hcall) in H.
    cbn zeta in H.
    destruct r as [generated|e].
    + injection H as <- <- <-. eapply R_trans; [exact H2 | apply R_index].
    + destruct (isPromptError e) as [[|]|].
      * injection H as <- <- <-. exact H2.
      * destruct (isRateLimitError e) as [rl|].
        -- apply IH in H. eapply R_trans; [exact H2|].
           eapply R_trans; [apply afterFailure_across; exact Hin | exact H].
        -- injection H as <- <- <-. exact H2.
      * injection H as <- <- <-. exact H2.
Qed.

(** ... and across the [for] loop, if it also holds across the other
    status lines and across the recording of a result. *)
Hypothesis R_any_status : forall m st, R st (setStatusMessage m st).
Hypothesis R_record : forall r fr st, R st (snd (record env sid r fr st)).

Lemma forLoop_across (total : nat) :
  forall (todo : list string) (i : nat) (fr : list GenerationResult) (k : nat) (st : St)
         (c : Completion) (fr' : list GenerationResult) (k' : nat) (st' : St),
    Forall okPrompt todo ->
    forLoop env apiKeys0 sid total i todo fr k st = (c, fr', k', st') -> R st st'.
Proof.
  induction todo as [|prompt0 rest IH]; intros i fr k st c fr' k' st' Hok H.
  - cbn in H. injection H as <- <- <- <-. apply R_refl.
  - inversion Hok as [|x l Hp Hrest]; subst. cbn [forLoop] in H.
    destruct (stopRequest st) eqn:Hs.
    { injection H as <- <- <- <-. apply R_any_status. }
    destruct (whileLoop env apiKeys0 i total prompt0
                (List.length (filter isActive apiKeys0)) (mkAttempt None false 0 k)
                (setStatusMessage (statusProcessing i total prompt0) st))
      as [[c0 v] st2] eqn:Hw.
    assert (H2 : R st st2).
    { eapply R_trans; [apply R_any_status|]. eapply whileLoop_across; eassumption. }
    destruct c0; [|injection H as <- <- <- <-; exact H2].
    destruct (stopRequest st2); [injection H as <- <- <- <-; exact H2|].
    destruct (match success v, promptResult v with
              | false, None => Some (allKeysFailed prompt0)
              | _, pr => pr
              end) as [r|].
    + destruct (record env sid r fr st2) as [fr1 st3] eqn:Hrec.
      apply IH in H; [|exact Hrest]. eapply R_trans; [exact H2|].
      eapply R_trans; [|exact H].
      pose proof (R_record r fr st2) as Hr. rewrite Hrec in Hr. exact Hr.
    + apply IH in H; [|exact Hrest]. eapply R_trans; eassumption.
Qed.
(** ... and across [handleGenerate], if it also holds across what
    [handleGenerate] does before and after the loop. *)
Hypothesis R_alert : forall m st, R st (emit (EvAlert m) st).
Hypothesis R_reset :
  forall st,
    R st (setStatusMessage "Starting generation..."
            (setResults [] (setStopRequest false (setIsLoading true st)))).
Hypothesis R_loading : forall b st, R st (setIsLoading b st).

Lemma handleGenerate_across (st : St) (c : Completion) (st' : St) :
  apiKeys0 = App.apiKeys (app st) ->
  sid = isoNow env (world st) ->
  Forall okPrompt (promptsToProcess (prompts st)) ->
  handleGenerate env st = (c, st') -> R st st'.
Proof.
  intros Hk Hsid Hok. unfold handleGenerate.
  destruct (isEmpty (trim (prompts st))); [intros H; injection H as <- <-; apply R_alert|].
  destruct (List.length (filter isActive (App.apiKeys (app st))) =? 0);
    [intros H; injection H as <- <-; apply R_alert|].
  set (st1 := setStatusMessage "Starting generation..."
                (setResults [] (setStopRequest false (setIsLoading true st)))).
  change (isoNow env (world st1)) with (isoNow env (world st)).
  rewrite <- Hk, <- Hsid.
  destruct (forLoop env apiKeys0 sid
              (List.length (promptsToProcess (prompts st))) 0
              (promptsToProcess (prompts st)) [] (currentKeyIndex st) st1)
    as [[[c0 fr'] k'] st2] eqn:E.
  assert (H2 : R st st2).
  { eapply R_trans; [apply R_reset|]. eapply forLoop_across; eassumption. }
  destruct c0; intros H; injection H as <- <-; [|exact H2].
  eapply R_trans; [exact H2|].
  destruct (negb (stopRequest st2)); [|apply R_loading].
  eapply R_trans; [apply R_any_status | apply R_loading].
Qed.

End Across.

Lemma awaitGenerateImages_snd (p k : string) (n : nat) (st : St) :
  let st2 := snd (awaitGenerateImages env p k n st) in
  app st2 = app st
  /\ trace st2 = EvCall p k n :: trace st
  /\ numImages st2 = numImages st
  /\ isLoading st2 = isLoading st
  /\ (statusMessage st2 = statusMessage st
      \/ statusMessage st2 = "Stopping generation...").
Proof.
  cbn zeta. unfold awaitGenerateImages.
  destruct (callGateway env p k n (world st)) as [reply w].
  destruct (stopClicked reply); cbn; auto 10.
Qed.

Lemma awaitTimeout_snd (ms : nat) (st : St) :
  let st2 := awaitTimeout env ms st in
  app st2 = app st
  /\ trace st2 = EvWait ms :: trace st
  /\ numImages st2 = numImages st
  /\ isLoading st2 = isLoading st
  /\ (statusMessage st2 = statusMessage st
      \/ statusMessage st2 = "Stopping generation...").
Proof.
  cbn zeta. unfold awaitTimeout.
  destruct (sleep env ms (world st)) as [clicked w].
  destruct clicked; cbn; auto 10.
Qed.

(** However many keys fail during a run, the pool it leaves differs from
    the pool it started with in at most one key: the pool is either
    untouched, or it is the starting pool with one of its Active keys
    marked Rate Limited.  (Each mark is computed from the starting pool,
    so a later mark takes back the earlier ones.) *)
Theorem run_marks_at_most_one_key (st : St) (c : Completion) (st' : St) :
  handleGenerate env st = (c, st') ->
  App.apiKeys (app st') = App.apiKeys (app st)
  \/ exists apiKey,
       In apiKey (App.apiKeys (app st)) /\ isActive apiKey = true
       /\ App.apiKeys (app st')
          = withKeyStatus (key apiKey) RateLimited (App.apiKeys (app st)).
Proof.
  intros H.
  pose (R := fun a b : St =>
               App.apiKeys (app b) = App.apiKeys (app a)
               \/ exists apiKey,
                    In apiKey (filter isActive (App.apiKeys (app st)))
                    /\ App.apiKeys (app b)
                       = withKeyStatus (key apiKey) RateLimited (App.apiKeys (app st))).
  assert (HR : R st st').
  { apply (handleGenerate_across (App.apiKeys (app st)) (isoNow env (world st))
             (fun _ => True) R) with (c := c); unfold R; clear R; auto.
    - intros a b c0 [E1|E1] [E2|E2]; [left; congruence | now right | right | now right].
      destruct E1 as (k & Hk & E1). exists k. split; [exact Hk | congruence].
    - intros p apiKey st0 _ _. left.
      now rewrite (proj1 (awaitGenerateImages_snd p (key apiKey) (numImages st0) st0)).
    - intros apiKey st0 Hin. right. exists apiKey. split; [exact Hin | reflexivity].
    - intros st0. left. now rewrite (proj1 (awaitTimeout_snd 2000 st0)).
    - intros r fr st0. left.
      destruct (record_facts W env (isoNow env (world st)) r fr st0)
        as (_ & _ & _ & E & _). exact E.
    - apply Forall_forall. auto. }
  destruct HR as [E|(apiKey & Hin & E)]; [now left|].
  right. exists apiKey. apply filter_In in Hin as [Hin Hact]. auto.
Qed.



Lemma record_other_sessions (sid : string) (r : GenerationResult)
    (fr : list GenerationResult) (st : St) :
  otherSessions sid (loadHistory (App.localStorage (app (snd (record env sid r fr st)))))
  = otherSessions sid (loadHistory (App.localStorage (app st))).
Proof.
  destruct (record_facts W env sid r fr st) as (_ & _ & _ & _ & _ & Hrule).
  cbn zeta in *.
  destruct ((hasImage r || truthy (error r)) && existsb hasImage (fr ++ [r])).
  - assert (E2 : App.localStorage (app (snd (record env sid r fr st)))
                 = snd (updateHistory (localeNow env (world st)) sid (fr ++ [r])
                          (App.localStorage (app st)))) by now rewrite <- Hrule.
    rewrite E2, HistoryFacts.loadHistory_updateHistory.
    apply StoreFacts.otherSessions_updateHistory.
  - now rewrite Hrule.
Qed.

(** A run writes to one session only, its own: the stored sessions with
    another identifier, and their order, are after the run what they
    were before it. *)
Theorem run_touches_one_session (st : St) (c : Completion) (st' : St) :
  handleGenerate env st = (c, st') ->
  otherSessions (isoNow env (world st)) (loadHistory (App.localStorage (app st')))
  = otherSessions (isoNow env (world st)) (loadHistory (App.localStorage (app st))).
Proof.
  intros H.
  apply (handleGenerate_across (App.apiKeys (app st)) (isoNow env (world st))
           (fun _ => True)
           (fun a b : St =>
              otherSessions (isoNow env (world st))
                (loadHistory (App.localStorage (app b)))
              = otherSessions (isoNow env (world st))
                  (loadHistory (App.localStorage (app a)))))
    with (st := st) (c := c); auto.
  - intros a b c0 E1 E2. congruence.
  - intros p apiKey st0 _ _.
    now rewrite (proj1 (awaitGenerateImages_snd p (key apiKey) (numImages st0) st0)).
  - intros st0. now rewrite (proj1 (awaitTimeout_snd 2000 st0)).
  - intros r fr st0. apply record_other_sessions.
  - apply Forall_forall. auto.
Qed.

Lemma record_trace (sid : string) (r : GenerationResult) (fr : list GenerationResult)
    (st : St) :
  let st' := snd (record env sid r fr st) in
  numImages st' = numImages st
  /\ isLoading st' = isLoading st
  /\ statusMessage st' = statusMessage st
  /\ stopRequest st' = stopRequest st
  /\ exists new,
       trace st' = (new ++ trace st)%list
       /\ Forall (fun ev => match ev with EvCall _ _ _ => False | _ => True end) new.
Proof.
  cbn zeta. unfold record.
  destruct ((0 <? List.length (images r)) || truthy (error r)); cbn [snd].
  - unfold onGenerationUpdate. cbn. repeat split; auto.
    eexists [_]. split; [reflexivity|]. repeat constructor.
  - cbn. repeat split; auto. exists []. split; [reflexivity | constructor].
Qed.

(** Every request a run sends is for one of the prompts to process (none
    of them blank), with a key that was Active in the pool when the run
    started, and for the image count set when the run started. *)
Theorem run_sends_expected_calls (st : St) (c : Completion) (st' : St) :
  handleGenerate env st = (c, st') ->
  (forall p, In p (promptsToProcess (prompts st)) -> isEmpty (trim p) = false)
  /\ exists new,
       trace st' = (new ++ trace st)%list
       /\ Forall (expectedCall (promptsToProcess (prompts st))
                    (filter isActive (App.apiKeys (app st))) (numImages st)) new.
Proof.
  intros H. split.
  { intros p Hin. unfold promptsToProcess in Hin. apply filter_In in Hin as [_ Hp].
    now apply negb_true_iff in Hp. }
  pose (ok := expectedCall (promptsToProcess (prompts st))
                (filter isActive (App.apiKeys (app st))) (numImages st)).
  pose (R := fun a b : St =>
               (numImages a = numImages st -> numImages b = numImages st)
               /\ (numImages a = numImages st ->
                   exists new, trace b = (new ++ trace a)%list /\ Forall ok new)).
  assert (Hstep : forall (a b : St) (new : list Event),
             numImages b = numImages a -> trace b = (new ++ trace a)%list ->
             Forall ok new -> R a b).
  { intros a b new Hn Ht Hf. split; [congruence | eauto]. }
  assert (HR : R st st').
  { apply (handleGenerate_across (App.apiKeys (app st)) (isoNow env (world st))
             (fun p => In p (promptsToProcess (prompts st))) R) with (c := c); auto.
    - intros a. apply (Hstep a a []); auto.
    - intros a b c0 [N1 T1] [N2 T2]. split; [auto|]. intros Ha.
      destruct (T1 Ha) as (n1 & E1 & F1). destruct (T2 (N1 Ha)) as (n2 & E2 & F2).
      exists (n2 ++ n1)%list. split; [rewrite E2, E1; apply app_assoc|].
      apply Forall_app. auto.
    - intros m a _. apply (Hstep a _ []); auto.
    - intros i a. apply (Hstep a _ []); auto.
    - intros p apiKey a Hp Hin.
      destruct (awaitGenerateImages_snd p (key apiKey) (numImages a) a)
        as (_ & Ht & Hn & _). cbn zeta in *.
      split; [congruence|]. intros Ha. eexists [_]. split; [exact Ht|].
      constructor; [|constructor]. cbn. rewrite Ha. eauto.
    - intros apiKey a _. apply (Hstep a _ []); auto.
    - intros a. destruct (awaitTimeout_snd 2000 a) as (_ & Ht & Hn & _). cbn zeta in *.
      apply (Hstep a _ [EvWait 2000]); auto. repeat constructor.
    - intros m a. apply (Hstep a _ []); auto.
    - intros r fr a.
      destruct (record_trace (isoNow env (world st)) r fr a)
        as (Hn & _ & _ & _ & new & Ht & Hf). cbn zeta in *.
      apply (Hstep a _ new); auto.
      eapply Forall_impl; [|exact Hf]. intros [] Hev; cbn; auto. contradiction.
    - intros m a. apply (Hstep a _ [EvAlert m]); auto. repeat constructor.
    - intros a. apply (Hstep a _ []); auto.
    - intros b a. apply (Hstep a _ []); auto.
    - apply Forall_forall. auto. }
  destruct HR as [_ HT]. exact (HT eq_refl).
Qed.

Lemma forLoop_finished (apiKeys0 : list ApiKey) (sid : string) (total : nat) :
  forall (todo : list string) (i : nat) (fr : list GenerationResult) (k : nat) (st : St)
         (fr' : list GenerationResult) (k' : nat) (st' : St),
    forLoop env apiKeys0 sid total i todo fr k st = (Returned, fr', k', st') ->
    stopRequest st' = false ->
    List.length fr' = List.length fr + List.length todo.
Proof.
  induction todo as [|prompt0 rest IH]; intros i fr k st fr' k' st' H Hs'.
  - cbn in H. injection H as <- <- <-. cbn. lia.
  - cbn [forLoop] in H.
    destruct (stopRequest st) eqn:Hs.
    { injection H as <- <- <-. cbn in Hs'. congruence. }
    destruct (whileLoop env apiKeys0 i total prompt0
                (List.length (filter isActive apiKeys0)) (mkAttempt None false 0 k)
                (setStatusMessage (statusProcessing i total prompt0) st))
      as [[c0 v] st2] eqn:Hw.
    destruct (whileLoop_inv _ _ _ _ _ _ _ _ _ _ _ _ Hw) as (_ & _ & Hsu & _).
    destruct c0; [|discriminate].
    destruct (stopRequest st2) eqn:Hs2; [injection H as <- <- <-; congruence|].
    destruct (match success v, promptResult v with
              | false, None => Some (allKeysFailed prompt0)
              | _, pr => pr
              end) as [r|] eqn:Hres.
    + destruct (record env sid r fr st2) as [fr1 st3] eqn:Hrec.
      destruct (record_facts W env sid r fr st2) as (Hf & _).
      cbn zeta in Hf. rewrite Hrec in Hf. cbn [fst] in Hf.
      rewrite (IH _ _ _ _ _ _ _ H Hs'), Hf, length_app. cbn. lia.
    + exfalso. destruct (success v) eqn:Es, (promptResult v) eqn:Ep; try discriminate.
      destruct (Hsu eq_refl) as [E|[r E]]; discriminate.
Qed.

Lemma forLoop_isLoading (apiKeys0 : list ApiKey) (sid : string) (total : nat)
    (todo : list string) (i : nat) (fr : list GenerationResult) (k : nat) (st : St)
    (c : Completion) (fr' : list GenerationResult) (k' : nat) (st' : St) :
  forLoop env apiKeys0 sid total i todo fr k st = (c, fr', k', st') ->
  isLoading st' = isLoading st.
Proof.
  apply (forLoop_across apiKeys0 sid (fun _ => True)
           (fun a b : St => isLoading b = isLoading a)); auto.
  - intros a b c0 E1 E2. congruence.
  - intros p apiKey a _ _.
    now destruct (awaitGenerateImages_snd p (key apiKey) (numImages a) a)
      as (_ & _ & _ & E & _).
  - intros a. now destruct (awaitTimeout_snd 2000 a) as (_ & _ & _ & E & _).
  - intros r fr0 a. now destruct (record_trace sid r fr0 a) as (_ & E & _).
  - apply Forall_forall. auto.
Qed.

(** How a run that got past the two alerts ends.  If an exception leaves
    it, the page stays in the loading state.  If it returns, the loading
    state is off; and if Stop is not set by then, the status line is 'All
    prompts processed.' and the result sequence has exactly one outcome
    per prompt, in order. *)
Theorem run_end_state (st : St) (c : Completion) (st' : St) :
  isEmpty (trim (prompts st)) = false ->
  existsb isActive (App.apiKeys (app st)) = true ->
  handleGenerate env st = (c, st') ->
  (c = Uncaught -> isLoading st' = true)
  /\ (c = Returned ->
      isLoading st' = false
      /\ (stopRequest st' = false ->
          statusMessage st' = "All prompts processed."
          /\ map prompt (results st') = promptsToProcess (prompts st))).
Proof.
  intros Hblank Hkeys. unfold handleGenerate.
  rewrite Hblank, (active_key_exists _ Hkeys).
  set (st1 := setStatusMessage "Starting generation..."
                (setResults [] (setStopRequest false (setIsLoading true st)))).
  destruct (forLoop env (App.apiKeys (app st)) (isoNow env (world st1))
              (List.length (promptsToProcess (prompts st))) 0
              (promptsToProcess (prompts st)) [] (currentKeyIndex st) st1)
    as [[[c0 fr'] k'] st2] eqn:E.
  pose proof (forLoop_isLoading _ _ _ _ _ _ _ _ _ _ _ _ E) as Hload.
  destruct (forLoop_journal _ _ _ _ _ _ _ _ _ _ _ _ _ _ E)
    as (new & Hfr & Hres & [j Hj] & _).
  cbn [app] in Hfr. cbn [results st1 setStatusMessage setResults app] in Hres.
  destruct c0; intros H; injection H as <- <-; (split; [|intros Hc; try discriminate]).
  - discriminate.
  - split; [reflexivity|]. intros Hs.
    assert (Hs2 : stopRequest st2 = false).
    { destruct (stopRequest st2) eqn:X; [cbn in Hs; congruence | reflexivity]. }
    rewrite Hs2. cbn. split; [reflexivity|].
    pose proof (forLoop_finished _ _ _ _ _ _ _ _ _ _ _ E Hs2) as Hlen.
    cbn in Hlen. rewrite Hres. subst fr'.
    apply (firstn_full j); [exact Hj | now rewrite length_map].
  - intros _. exact Hload.
Qed.

Lemma attemptStatus_not_stopped (m : string) :
  attemptStatus m -> m <> "Generation stopped by user.".
Proof. intros []; cbn; discriminate. Qed.

Lemma forLoop_status (apiKeys0 : list ApiKey) (sid : string) (total : nat) :
  forall (todo : list string) (i : nat) (fr : list GenerationResult) (k : nat) (st : St)
         (c : Completion) (fr' : list GenerationResult) (k' : nat) (st' : St),
    stopRequest st = false ->
    statusMessage st <> "Generation stopped by user." ->
    forLoop env apiKeys0 sid total i todo fr k st = (c, fr', k', st') ->
    statusMessage st' <> "Generation stopped by user.".
Proof.
  induction todo as [|prompt0 rest IH]; intros i fr k st c fr' k' st' Hs Hm H.
  - cbn in H. injection H as <- <- <- <-. exact Hm.
  - cbn [forLoop] in H. rewrite Hs in H.
    destruct (whileLoop env apiKeys0 i total prompt0
                (List.length (filter isActive apiKeys0)) (mkAttempt None false 0 k)
                (setStatusMessage (statusProcessing i total prompt0) st))
      as [[c0 v] st2] eqn:Hw.
    assert (H2 : statusMessage st2 <> "Generation stopped by user.").
    { refine (whileLoop_across apiKeys0 (fun _ => True)
                (fun a b : St =>
                   statusMessage a <> "Generation stopped by user." ->
                   statusMessage b <> "Generation stopped by user.")
                _ _ _ _ _ _ _ i total prompt0 I _ _ _ _ _ _ Hw _); auto.
      - intros m a Hm' _. cbn. now apply attemptStatus_not_stopped.
      - intros p apiKey a _ _ Ha.
        destruct (awaitGenerateImages_snd p (key apiKey) (numImages a) a)
          as (_ & _ & _ & _ & [E|E]); cbn zeta in E; rewrite E; [exact Ha | discriminate].
      - intros a Ha.
        destruct (awaitTimeout_snd 2000 a) as (_ & _ & _ & _ & [E|E]);
          cbn zeta in E; rewrite E; [exact Ha | discriminate].
      - cbn. discriminate. }
    destruct c0; [|injection H as <- <- <- <-; exact H2].
    destruct (stopRequest st2) eqn:Hs2; [injection H as <- <- <- <-; exact H2|].
    destruct (match success v, promptResult v with
              | false, None => Some (allKeysFailed prompt0)
              | _, pr => pr
              end) as [r|].
    + destruct (record env sid r fr st2) as [fr1 st3] eqn:Hrec.
      destruct (record_trace sid r fr st2) as (_ & _ & Em & Es & _).
      cbn zeta in Em, Es. rewrite Hrec in Em, Es. cbn [snd] in Em, Es.
      apply (IH _ _ _ _ _ _ _ _ (eq_trans Es Hs2)) in H; [exact H|].
      now rewrite Em.
    + apply (IH _ _ _ _ _ _ _ _ Hs2 H2) in H. exact H.
Qed.

(** The status line 'Generation stopped by user.' is never what a run
    leaves behind: the only place that sets it tests Stop before a
    prompt, and Stop, once set during a prompt, ends the loop right after
    that prompt, before the test is reached. *)
Theorem stopped_status_is_never_left (st : St) (c : Completion) (st' : St) :
  isEmpty (trim (prompts st)) = false ->
  existsb isActive (App.apiKeys (app st)) = true ->
  handleGenerate env st = (c, st') ->
  statusMessage st' <> "Generation stopped by user.".
Proof.
  intros Hblank Hkeys. unfold handleGenerate.
  rewrite Hblank, (active_key_exists _ Hkeys).
  set (st1 := setStatusMessage "Starting generation..."
                (setResults [] (setStopRequest false (setIsLoading true st)))).
  destruct (forLoop env (App.apiKeys (app st)) (isoNow env (world st1))
              (List.length (promptsToProcess (prompts st))) 0
              (promptsToProcess (prompts st)) [] (currentKeyIndex st) st1)
    as [[[c0 fr'] k'] st2] eqn:E.
  assert (H2 : statusMessage st2 <> "Generation stopped by user.").
  { eapply forLoop_status; [| |exact E]; [reflexivity | cbn; discriminate]. }
  destruct c0; intros H; injection H as <- <-; [|exact H2].
  destruct (negb (stopRequest st2)); cbn; [discriminate | exact H2].
Qed.

Lemma whileLoop_success (apiKeys0 : list ApiKey) (i total : nat) (prompt0 : string)
    (n : nat) (v : Attempt) (st st2 : St) (apiKey : ApiKey) (generated : list string) :
  n <> 0 ->
  stopRequest st = false ->
  selectedKey apiKeys0 (keyIdx v) = Some apiKey ->
  awaitGenerateImages env prompt0 (key apiKey) (numImages st)
    (setStatusMessage (statusTrying i total apiKey) st) = (inl generated, st2) ->
  whileLoop env apiKeys0 i total prompt0 n v st
  = (Returned,
     mkAttempt (Some (mkResult prompt0 generated JUndefined)) true (attempts v)
               (keyIdx v mod List.length (filter isActive apiKeys0)),
     setCurrentKeyIndex (keyIdx v mod List.length (filter isActive apiKeys0)) st2).
Proof.
  intros Hn Hs Hsel Hcall. destruct n as [|b]; [contradiction|].
  now rewrite (whileLoop_pass apiKeys0 i total prompt0 b v st st2 apiKey
                 (inl generated) Hs Hsel Hcall).
Qed.

(** A prompt whose first call succeeds: that call is the only request for
    the prompt, the pool is left as it was, [currentKeyIndex] is set to
    the index of the key used, the outcome has the images returned and no
    error, and the next prompt starts from the same key. *)
Theorem first_call_success (apiKeys0 : list ApiKey) (sid : string) (total i : nat)
    (prompt0 : string) (rest : list string) (fr : list GenerationResult) (k : nat)
    (st st2 : St) (apiKey : ApiKey) (generated : list string) :
  stopRequest st = false ->
  selectedKey apiKeys0 k = Some apiKey ->
  awaitGenerateImages env prompt0 (key apiKey) (numImages st)
    (setStatusMessage (statusTrying i total apiKey)
       (setStatusMessage (statusProcessing i total prompt0) st)) = (inl generated, st2) ->
  stopRequest st2 = false ->
  let idx := k mod List.length (filter isActive apiKeys0) in
  let st3 := setCurrentKeyIndex idx st2 in
  forLoop env apiKeys0 sid total i (prompt0 :: rest) fr k st
  = forLoop env apiKeys0 sid total (i + 1) rest
      (fst (record env sid (mkResult prompt0 generated JUndefined) fr st3)) idx
      (snd (record env sid (mkResult prompt0 generated JUndefined) fr st3))
  /\ App.apiKeys (app st3) = App.apiKeys (app st)
  /\ currentKeyIndex st3 = idx
  /\ trace st3 = EvCall prompt0 (key apiKey) (numImages st) :: trace st.
Proof.
  intros Hs Hsel Hcall Hs2 idx st3.
  destruct (awaitGenerateImages_frame _ _ _ _ _ _ _ _ Hcall) as (Happ & Htr & _).
  split; [|split; [|split]].
  - cbn [forLoop]. rewrite Hs.
    destruct (selectedKey_some _ _ _ Hsel) as (Hlen & _ & _).
    apply Nat.eqb_neq in Hlen.
    rewrite (whileLoop_success apiKeys0 i total prompt0 _ (mkAttempt None false 0 k)
               (setStatusMessage (statusProcessing i total prompt0) st) st2 apiKey
               generated Hlen Hs Hsel Hcall).
    cbn [keyIdx attempts success promptResult]. fold idx. fold st3.
    change (stopRequest st3) with (stopRequest st2). rewrite Hs2.
    destruct (record env sid (mkResult prompt0 generated JUndefined) fr st3)
      as [fr1 st4].
    reflexivity.
  - subst st3. cbn. now rewrite Happ.
  - reflexivity.
  - subst st3. cbn [trace setCurrentKeyIndex]. rewrite Htr. reflexivity.
Qed.

Lemma selectedKey_next (apiKeys0 : list ApiKey) (k j : nat) :
  selectedKey apiKeys0 (k mod List.length (filter isActive apiKeys0) + 1 + j)
  = selectedKey apiKeys0 (k + S j).
Proof.
  unfold selectedKey.
  destruct (List.length (filter isActive apiKeys0)) as [|n] eqn:En.
  - destruct (filter isActive apiKeys0); [|discriminate].
    now destruct (_ mod 0), (_ mod 0).
  - f_equal. rewrite <- !Nat.add_assoc.
    rewrite Nat.Div0.add_mod_idemp_l. reflexivity.
Qed.

Lemma afterFailure_frame (apiKeys0 : list ApiKey) (apiKey : ApiKey) (rl : bool)
    (st : St) :
  numImages (afterFailure env apiKeys0 apiKey rl st) = numImages st
  /\ exists waits,
       trace (afterFailure env apiKeys0 apiKey rl st) = (waits ++ trace st)%list
       /\ callsOf waits = [].
Proof.
  unfold afterFailure. cbn zeta.
  destruct (rl && negb _).
  - destruct (awaitTimeout_snd 2000
                (setStatusMessage
                   (if rl then statusCoolingDown apiKey else statusFailed apiKey)
                   (updateApiKeyStatus apiKeys0 (key apiKey) RateLimited st)))
      as (_ & Ht & Hn & _). cbn zeta in *.
    split; [exact Hn|]. exists [EvWait 2000]. split; [exact Ht | reflexivity].
  - split; [reflexivity|]. exists []. split; reflexivity.
Qed.

Lemma callsOf_app (a b : list Event) : callsOf (a ++ b) = (callsOf b ++ callsOf a)%list.
Proof. unfold callsOf. now rewrite filter_app, rev_app_distr. Qed.

Lemma whileLoop_tried (apiKeys0 : list ApiKey) (i total : nat) (prompt0 : string) :
  forall (b : nat) (v : Attempt) (st : St) (c : Completion) (v' : Attempt) (st' : St),
    whileLoop env apiKeys0 i total prompt0 b v st = (c, v', st') ->
    exists tried new,
      trace st' = (new ++ trace st)%list
      /\ callsOf new = map (fun a => EvCall prompt0 (key a) (numImages st)) tried
      /\ List.length tried <= b
      /\ (forall j, j < List.length tried ->
                    nth_error tried j = selectedKey apiKeys0 (keyIdx v + j)).
Proof.
  assert (Hnone : forall (b : nat) (v : Attempt) (st : St),
             exists tried new,
               trace st = (new ++ trace st)%list
               /\ callsOf new = map (fun a => EvCall prompt0 (key a) (numImages st)) tried
               /\ List.length tried <= b
               /\ (forall j, j < List.length tried ->
                             nth_error tried j = selectedKey apiKeys0 (keyIdx v + j))).
  { intros b v st. exists [], []. cbn. repeat split; auto; intros; lia. }
  induction b as [|b IH]; intros v st c v' st' H.
  - cbn in H. injection H as <- <- <-. apply Hnone.
  - destruct (stopRequest st) eqn:Hs.
    { cbn [whileLoop] in H. rewrite Hs in H. injection H as <- <- <-. apply Hnone. }
    destruct (List.length (filter isActive apiKeys0) =? 0) eqn:Hl.
    { cbn [whileLoop] in H. rewrite Hs, Hl in H. injection H as <- <- <-. apply Hnone. }
    destruct (selectedKey_total apiKeys0 (keyIdx v) Hl) as [apiKey Hsel].
    destruct (awaitGenerateImages env prompt0 (key apiKey) (numImages st)
                (setStatusMessage (statusTrying i total apiKey) st))
      as [r st2] eqn:Hcall.
    destruct (awaitGenerateImages_frame _ _ _ _ _ _ _ _ Hcall) as (_ & Htr & Hn & _).
    cbn [trace numImages setStatusMessage] in Htr, Hn.
    assert (Hone : forall st3 : St,
               trace st3 = trace st2 ->
               exists tried new,
                 trace st3 = (new ++ trace st)%list
                 /\ callsOf new = map (fun a => EvCall prompt0 (key a) (numImages st)) tried
                 /\ List.length tried <= S b
                 /\ (forall j, j < List.length tried ->
                               nth_error tried j = selectedKey apiKeys0 (keyIdx v + j))).
    { intros st3 E. exists [apiKey], [EvCall prompt0 (key apiKey) (numImages st)].
      rewrite E, Htr. cbn. repeat split; auto; [lia|].
      intros [|j] Hj; [|lia]. now rewrite Nat.add_0_r. }
    rewrite (whileLoop_pass apiKeys0 i total prompt0 b v st st2 apiKey r Hs Hsel Hcall) in H.
    cbn zeta in H.
    destruct r as [generated|e].
    { injection H as <- <- <-. now apply Hone. }
    destruct (isPromptError e) as [[|]|]; try (injection H as <- <- <-; now apply Hone).
    destruct (isRateLimitError e) as [rl|]; [|injection H as <- <- <-; now apply Hone].
    apply IH in H. destruct H as (tried & new & Ht & Hc & Hlen & Hnth).
    destruct (afterFailure_frame apiKeys0 apiKey rl st2) as (Hn5 & waits & Ht5 & Hw).
    exists (apiKey :: tried),
           (new ++ waits ++ [EvCall prompt0 (key apiKey) (numImages st)])%list.
    split; [|split; [|split]].
    + rewrite Ht, Ht5, Htr, <- !app_assoc. reflexivity.
    + rewrite !callsOf_app, Hw, Hc, Hn5, Hn. reflexivity.
    + cbn. lia.
    + intros [|j] Hj; cbn.
      * now rewrite Nat.add_0_r.
      * rewrite Hnth by (cbn in Hj; lia). cbn [keyIdx]. apply selectedKey_next.
Qed.

Lemma mod_shift_inj (n k j j' : nat) :
  j < n -> j' < n -> (k + j) mod n = (k + j') mod n -> j = j'.
Proof.
  intros Hj Hj' E.
  assert (Hn : n <> 0) by lia.
  pose proof (Nat.div_mod_eq (k + j) n) as D1.
  pose proof (Nat.div_mod_eq (k + j') n) as D2.
  rewrite E in D1.
  assert (Hq : (k + j) / n = (k + j') / n) by nia.
  lia.
Qed.

(** The requests for one prompt go round the Active keys: the [j]-th
    request (from 0) is made with the Active key number
    [(keyIdx + j) mod n] of the pool the run started with, where [n] is
    the number of those keys; there are at most as many requests as the
    budget allows; and when the budget is at most [n] and the keys are
    distinct, no key is used twice. *)
Theorem calls_go_round_the_keys (apiKeys0 : list ApiKey) (i total : nat)
    (prompt0 : string) (b : nat) (v : Attempt) (st : St) (c : Completion)
    (v' : Attempt) (st' : St) :
  whileLoop env apiKeys0 i total prompt0 b v st = (c, v', st') ->
  exists tried new,
    trace st' = (new ++ trace st)%list
    /\ callsOf new = map (fun a => EvCall prompt0 (key a) (numImages st)) tried
    /\ List.length tried <= b
    /\ (forall j, j < List.length tried ->
                  nth_error tried j = selectedKey apiKeys0 (keyIdx v + j))
    /\ (b <= List.length (filter isActive apiKeys0) ->
        NoDup (map key (filter isActive apiKeys0)) ->
        NoDup (map key tried)).
Proof.
  intros H.
  destruct (whileLoop_tried apiKeys0 i total prompt0 b v st c v' st' H)
    as (tried & new & Ht & Hc & Hlen & Hnth).
  exists tried, new. repeat (split; [assumption|]).
  intros Hb Hnd. apply NoDup_nth_error. intros j j' Hj E.
  rewrite length_map in Hj.
  rewrite !nth_error_map in E.
  rewrite (Hnth j Hj) in E.
  destruct (Nat.lt_ge_cases j' (List.length tried)) as [Hj'|Hj'].
  - rewrite (Hnth j' Hj') in E. unfold selectedKey in E.
    rewrite <- !nth_error_map in E.
    set (n := List.length (filter isActive apiKeys0)) in *.
    assert (Hn : n <> 0) by lia.
    apply (proj1 (NoDup_nth_error _) Hnd) in E.
    + apply (mod_shift_inj n (keyIdx v)); [lia | lia | exact E].
    + rewrite length_map. fold n. now apply Nat.mod_upper_bound.
  - apply nth_error_None in Hj'. rewrite Hj' in E. cbn in E.
    pose proof (Hnth j Hj) as Hsome.
    destruct (nth_error tried j) eqn:X.
    + rewrite <- Hsome in E. discriminate.
    + apply nth_error_None in X. lia.
Qed.

Lemma whileLoop_no_exhaustion_message (apiKeys0 : list ApiKey) (i total : nat)
    (prompt0 : string) :
  (List.length (filter isActive apiKeys0) =? 0) = false ->
  forall (b : nat) (v : Attempt) (st : St) (c : Completion) (v' : Attempt) (st' : St),
    whileLoop env apiKeys0 i total prompt0 b v st = (c, v', st') ->
    forall r, promptResult v' = Some r ->
              promptResult v = Some r
              \/ error r <> JStr "All available keys are rate-limited.".
Proof.
  intros Hl. induction b as [|b IH]; intros v st c v' st' H r Hr.
  - cbn in H. injection H as <- <- <-. now left.
  - destruct (stopRequest st) eqn:Hs.
    { cbn [whileLoop] in H. rewrite Hs in H. injection H as <- <- <-. now left. }
    destruct (selectedKey_total apiKeys0 (keyIdx v) Hl) as [apiKey Hsel].
    destruct (awaitGenerateImages env prompt0 (key apiKey) (numImages st)
                (setStatusMessage (statusTrying i total apiKey) st))
      as [s st2] eqn:Hcall.
    rewrite (whileLoop_pass apiKeys0 i total prompt0 b v st st2 apiKey s Hs Hsel Hcall) in H.
    cbn zeta in H.
    destruct s as [generated|e].
    { injection H as <- <- <-. cbn in Hr. injection Hr as <-. right. cbn. discriminate. }
    destruct (isPromptError e) as [[|]|] eqn:Hp.
    + injection H as <- <- <-. cbn in Hr. injection Hr as <-. right. cbn.
      intros Hm. rewrite (isPromptError_textual e _ Hm) in Hp. discriminate.
    + destruct (isRateLimitError e) as [rl|]; [|injection H as <- <- <-; now left].
      exact (IH _ _ _ _ _ H r Hr).
    + injection H as <- <- <-. now left.
Qed.

Lemma forLoop_no_exhaustion_message (apiKeys0 : list ApiKey) (sid : string) (total : nat) :
  (List.length (filter isActive apiKeys0) =? 0) = false ->
  forall (todo : list string) (i : nat) (fr : list GenerationResult) (k : nat) (st : St)
         (c : Completion) (fr' : list GenerationResult) (k' : nat) (st' : St),
    forLoop env apiKeys0 sid total i todo fr k st = (c, fr', k', st') ->
    Forall (fun r => error r <> JStr "All available keys are rate-limited.") fr ->
    Forall (fun r => error r <> JStr "All available keys are rate-limited.") fr'.
Proof.
  intros Hl. induction todo as [|prompt0 rest IH]; intros i fr k st c fr' k' st' H Hfr.
  - cbn in H. injection H as <- <- <- <-. exact Hfr.
  - cbn [forLoop] in H.
    destruct (stopRequest st); [injection H as <- <- <- <-; exact Hfr|].
    destruct (whileLoop env apiKeys0 i total prompt0
                (List.length (filter isActive apiKeys0)) (mkAttempt None false 0 k)
                (setStatusMessage (statusProcessing i total prompt0) st))
      as [[c0 v] st2] eqn:Hw.
    pose proof (whileLoop_no_exhaustion_message apiKeys0 i total prompt0 Hl
                  _ _ _ _ _ _ Hw) as Hv.
    destruct c0; [|injection H as <- <- <- <-; exact Hfr].
    destruct (stopRequest st2); [injection H as <- <- <- <-; exact Hfr|].
    destruct (match success v, promptResult v with
              | false, None => Some (allKeysFailed prompt0)
              | _, pr => pr
              end) as [r|] eqn:Hres.
    + destruct (record env sid r fr st2) as [fr1 st3] eqn:Hrec.
      destruct (record_facts W env sid r fr st2) as (Hf & _).
      cbn zeta in Hf. rewrite Hrec in Hf. cbn [fst] in Hf.
      apply (IH _ _ _ _ _ _ _ _ H). subst fr1. apply Forall_app. split; [exact Hfr|].
      constructor; [|constructor].
      destruct (success v), (promptResult v) as [r'|] eqn:Ep;
        try (injection Hres as <-; destruct (Hv _ eq_refl) as [X|X];
             [discriminate | exact X]).
      * discriminate.
      * injection Hres as <-. cbn. discriminate.
    + exact (IH _ _ _ _ _ _ _ _ H Hfr).
Qed.

(** No outcome of a run carries the error 'All available keys are
    rate-limited.': the test that yields it looks at the pool the run
    started with, which had an Active key, not at what the run has marked
    since. *)
Theorem exhaustion_message_is_never_recorded (st : St) (c : Completion) (st' : St) :
  isEmpty (trim (prompts st)) = false ->
  existsb isActive (App.apiKeys (app st)) = true ->
  handleGenerate env st = (c, st') ->
  forall r, In r (results st') ->
            error r <> JStr "All available keys are rate-limited.".
Proof.
  intros Hblank Hkeys. unfold handleGenerate.
  pose proof (active_key_exists _ Hkeys) as Hl. rewrite Hblank, Hl.
  set (st1 := setStatusMessage "Starting generation..."
                (setResults [] (setStopRequest false (setIsLoading true st)))).
  destruct (forLoop env (App.apiKeys (app st)) (isoNow env (world st1))
              (List.length (promptsToProcess (prompts st))) 0
              (promptsToProcess (prompts st)) [] (currentKeyIndex st) st1)
    as [[[c0 fr'] k'] st2] eqn:E.
  pose proof (forLoop_no_exhaustion_message _ _ _ Hl _ _ _ _ _ _ _ _ _ E (Forall_nil _))
    as Hall.
  destruct (forLoop_journal _ _ _ _ _ _ _ _ _ _ _ _ _ _ E) as (new & Hfr & Hres & _).
  cbn [app] in Hfr. cbn [results st1 setStatusMessage setResults app] in Hres.
  assert (Hsame : results st2 = fr') by congruence.
  intros H r Hin. rewrite Forall_forall in Hall. apply Hall. rewrite <- Hsame.
  destruct c0; injection H as <- <-; [|exact Hin].
  destruct (negb (stopRequest st2)); exact Hin.
Qed.

(** [handleGenerate] with nothing to do.  When the prompt box holds white
    space only (or nothing), it raises the alert 'Please enter at least
    one prompt.'; when the box has a prompt but the pool has no Active
    key, it raises 'Please add at least one active API key.'.  In both
    cases it returns at once: no request is sent, the loading state is
    not entered and the results shown are not cleared. *)
Theorem handleGenerate_alerts (st : St) :
  (WhiteSpaceOnly (bytes (prompts st)) ->
   handleGenerate env st
   = (Returned, emit (EvAlert "Please enter at least one prompt.") st))
  /\ (isEmpty (trim (prompts st)) = false ->
      existsb isActive (App.apiKeys (app st)) = false ->
      handleGenerate env st
      = (Returned, emit (EvAlert "Please add at least one active API key.") st)).
Proof.
  split.
  - intros H. unfold handleGenerate.
    now rewrite (GatewayFacts.trim_whiteSpaceOnly _ H).
  - intros Hp Hk. unfold handleGenerate. rewrite Hp.
    assert (E : filter isActive (App.apiKeys (app st)) = []).
    { induction (App.apiKeys (app st)) as [|x l IH]; [reflexivity|].
      cbn in Hk. apply orb_false_iff in Hk as [Hx Hl]. cbn. rewrite Hx. now apply IH. }
    now rewrite E.
Qed.

End Steps.
End RunFacts.

(** ** Further properties at concrete inputs *)

Module RunScenarios.
Import JsString Js Types ApiService GeneratorPage Notions Scripted.

Lemma isRateLimitError_iff_witness :
  isRateLimitError rateLimited = Some true
  /\ truthy rateLimited = true.
Proof.
  assert (H : isRateLimitError rateLimited = Some true) by reflexivity.
  exact (conj H (proj1 (proj1 (MessageFacts.isRateLimitError_iff rateLimited) H))).
Defined.

Lemma updateApiKeyStatus_only_status_witness :
  let a := App.mkApp [keyA; keyB] [] (mkStorage None None) in
  key keyA <> "BBBBBBBBBB2"
  /\ (In keyA (App.apiKeys (App.updateApiKeyStatus [keyA; keyB] "BBBBBBBBBB2" RateLimited a))
      <-> In keyA [keyA; keyB]).
Proof.
  intros a.
  assert (H : key keyA <> "BBBBBBBBBB2") by discriminate.
  exact (conj H
           (proj1 (proj2 (proj2 (proj2
              (PoolFacts.updateApiKeyStatus_only_status [keyA; keyB] "BBBBBBBBBB2"
                 RateLimited a)))) keyA H)).
Defined.

(** Both keys fail in turn, and only the second is Rate Limited in the
    pool the run leaves. *)
Lemma run_marks_at_most_one_key_witness :
  let st' := snd (handleGenerate env bothFail) in
  handleGenerate env bothFail = (Returned, st')
  /\ App.apiKeys (app st') = [keyA; mkApiKey "BBBBBBBBBB2" RateLimited Gemini]
  /\ (App.apiKeys (app st') = App.apiKeys (app bothFail)
      \/ exists apiKey,
           In apiKey (App.apiKeys (app bothFail)) /\ isActive apiKey = true
           /\ App.apiKeys (app st')
              = withKeyStatus (key apiKey) RateLimited (App.apiKeys (app bothFail))).
Proof.
  intros st'.
  assert (H : handleGenerate env bothFail = (Returned, st')) by (vm_compute; reflexivity).
  assert (H2 : App.apiKeys (app st') = [keyA; mkApiKey "BBBBBBBBBB2" RateLimited Gemini])
    by (vm_compute; reflexivity).
  exact (conj H (conj H2
           (RunFacts.run_marks_at_most_one_key Script env bothFail Returned st' H))).
Defined.


Lemma run_touches_one_session_witness :
  let st' := snd (handleGenerate env allGood) in
  handleGenerate env allGood = (Returned, st')
  /\ otherSessions (isoNow env (world allGood))
       (loadHistory (App.localStorage (app st')))
     = otherSessions (isoNow env (world allGood))
         (loadHistory (App.localStorage (app allGood))).
Proof.
  intros st'.
  assert (H : handleGenerate env allGood = (Returned, st')) by (vm_compute; reflexivity).
  exact (conj H (RunFacts.run_touches_one_session Script env allGood Returned st' H)).
Defined.

Lemma run_sends_expected_calls_witness :
  let st' := snd (handleGenerate env bothFail) in
  handleGenerate env bothFail = (Returned, st')
  /\ (forall p, In p (promptsToProcess (prompts bothFail)) -> isEmpty (JsString.trim p) = false)
  /\ exists new,
       trace st' = (new ++ trace bothFail)%list
       /\ Forall (expectedCall (promptsToProcess (prompts bothFail))
                    (filter isActive (App.apiKeys (app bothFail))) (numImages bothFail))
            new.
Proof.
  intros st'.
  assert (H : handleGenerate env bothFail = (Returned, st')) by (vm_compute; reflexivity).
  exact (conj H (RunFacts.run_sends_expected_calls Script env bothFail Returned st' H)).
Defined.

Lemma run_end_state_witness :
  let st' := snd (handleGenerate env allGood) in
  isEmpty (JsString.trim (prompts allGood)) = false
  /\ existsb isActive (App.apiKeys (app allGood)) = true
  /\ handleGenerate env allGood = (Returned, st')
  /\ stopRequest st' = false
  /\ statusMessage st' = "All prompts processed."
  /\ map prompt (results st') = promptsToProcess (prompts allGood).
Proof.
  intros st'.
  assert (H1 : isEmpty (JsString.trim (prompts allGood)) = false)
    by (vm_compute; reflexivity).
  assert (H2 : existsb isActive (App.apiKeys (app allGood)) = true) by reflexivity.
  assert (H3 : handleGenerate env allGood = (Returned, st')) by (vm_compute; reflexivity).
  assert (H4 : stopRequest st' = false) by (vm_compute; reflexivity).
  exact (conj H1 (conj H2 (conj H3 (conj H4
           (proj2 (proj2 (RunFacts.run_end_state Script env allGood Returned st'
                            H1 H2 H3) eq_refl) H4))))).
Defined.

(** Stop is pressed during the only call. *)
Lemma stopped_status_is_never_left_witness :
  let st0 := ready [keyA] "A" 1 (mkScript [mkReply (inl ["i1"]) true] []) in
  let st' := snd (handleGenerate env st0) in
  isEmpty (JsString.trim (prompts st0)) = false
  /\ existsb isActive (App.apiKeys (app st0)) = true
  /\ handleGenerate env st0 = (Returned, st')
  /\ stopRequest st' = true
  /\ statusMessage st' <> "Generation stopped by user.".
Proof.
  intros st0 st'.
  assert (H1 : isEmpty (JsString.trim (prompts st0)) = false) by (vm_compute; reflexivity).
  assert (H2 : existsb isActive (App.apiKeys (app st0)) = true) by reflexivity.
  assert (H3 : handleGenerate env st0 = (Returned, st')) by (vm_compute; reflexivity).
  assert (H4 : stopRequest st' = true) by (vm_compute; reflexivity).
  exact (conj H1 (conj H2 (conj H3 (conj H4
           (RunFacts.stopped_status_is_never_left Script env st0 Returned st'
              H1 H2 H3))))).
Defined.

Lemma first_call_success_witness :
  let st2 := snd (awaitGenerateImages env "A" (key keyA) 1
                    (setStatusMessage (statusTrying 0 2 keyA)
                       (setStatusMessage (statusProcessing 0 2 "A") allGood))) in
  stopRequest allGood = false
  /\ selectedKey [keyA; keyB] 0 = Some keyA
  /\ stopRequest st2 = false
  /\ App.apiKeys (app (setCurrentKeyIndex (0 mod 2) st2)) = App.apiKeys (app allGood)
  /\ trace (setCurrentKeyIndex (0 mod 2) st2) = [EvCall "A" "AAAAAAAAAA1" 1].
Proof.
  intros st2.
  assert (H1 : stopRequest allGood = false) by reflexivity.
  assert (H2 : selectedKey [keyA; keyB] 0 = Some keyA) by reflexivity.
  assert (H3 : awaitGenerateImages env "A" (key keyA) (numImages allGood)
                 (setStatusMessage (statusTrying 0 2 keyA)
                    (setStatusMessage (statusProcessing 0 2 "A") allGood))
               = (inl ["i1"], st2)) by reflexivity.
  assert (H4 : stopRequest st2 = false) by reflexivity.
  pose proof (RunFacts.first_call_success Script env [keyA; keyB] "s" 2 0 "A" ["B"] [] 0
                allGood st2 keyA ["i1"] H1 H2 H3 H4) as (_ & Hp & _ & Ht).
  exact (conj H1 (conj H2 (conj H4 (conj Hp Ht)))).
Defined.

Lemma calls_go_round_the_keys_witness :
  let out := whileLoop env [keyA; keyB] 0 1 "A" 2 fresh bothFail in
  exists tried new,
    trace (snd out) = (new ++ trace bothFail)%list
    /\ callsOf new = map (fun a => EvCall "A" (key a) (numImages bothFail)) tried
    /\ List.length tried <= 2
    /\ (forall j, j < List.length tried ->
                  nth_error tried j = selectedKey [keyA; keyB] (keyIdx fresh + j))
    /\ (2 <= List.length (filter isActive [keyA; keyB]) ->
        NoDup (map key (filter isActive [keyA; keyB])) ->
        NoDup (map key tried)).
Proof.
  intros out.
  assert (H : whileLoop env [keyA; keyB] 0 1 "A" 2 fresh bothFail
              = (fst (fst out), snd (fst out), snd out)) by (vm_compute; reflexivity).
  exact (RunFacts.calls_go_round_the_keys Script env [keyA; keyB] 0 1 "A" 2 fresh bothFail
           (fst (fst out)) (snd (fst out)) (snd out) H).
Defined.

Lemma exhaustion_message_is_never_recorded_witness :
  let st' := snd (handleGenerate env bothFail) in
  let r := mkResult "A" [] (JStr "All active API keys failed or are rate limited.") in
  isEmpty (JsString.trim (prompts bothFail)) = false
  /\ existsb isActive (App.apiKeys (app bothFail)) = true
  /\ handleGenerate env bothFail = (Returned, st')
  /\ In r (results st')
  /\ error r <> JStr "All available keys are rate-limited.".
Proof.
  intros st' r.
  assert (H1 : isEmpty (JsString.trim (prompts bothFail)) = false)
    by (vm_compute; reflexivity).
  assert (H2 : existsb isActive (App.apiKeys (app bothFail)) = true) by reflexivity.
  assert (H3 : handleGenerate env bothFail = (Returned, st')) by (vm_compute; reflexivity).
  assert (H4 : In r (results st')) by (vm_compute; left; reflexivity).
  exact (conj H1 (conj H2 (conj H3 (conj H4
           (RunFacts.exhaustion_message_is_never_recorded Script env bothFail Returned st'
              H1 H2 H3 r H4))))).
Defined.

Lemma handleGenerate_alerts_witness :
  let st0 := ready [mkApiKey "k1" RateLimited Gemini] "a cat" 1 (mkScript [] []) in
  isEmpty (JsString.trim (prompts st0)) = false
  /\ existsb isActive (App.apiKeys (app st0)) = false
  /\ handleGenerate env st0
     = (Returned, emit (EvAlert "Please add at least one active API key.") st0).
Proof.
  intros st0.
  assert (H1 : isEmpty (JsString.trim (prompts st0)) = false) by (vm_compute; reflexivity).
  assert (H2 : existsb isActive (App.apiKeys (app st0)) = false) by reflexivity.
  exact (conj H1 (conj H2
           (proj2 (RunFacts.handleGenerate_alerts Script env st0) H1 H2))).
Defined.

End RunScenarios.
